(** * The reqline endpoint: parser, URL builder and request handler

    A shallow embedding of [endpoints/reqline/parse.js]: the reqline parser
    [parseReqline], the query-string builder [buildFullUrl] and the
    endpoint [handler], followed by the properties the specification states
    about them and by further properties of the code.

    Conventions.
    - A JavaScript string is carried by the bytes of its UTF-8 encoding
      ([string] of the standard library).  A surrogate that is not part of
      a pair, which a JavaScript string may hold, is carried by the three
      bytes that generalised UTF-8 gives it: [ED], a byte from [A0] to
      [BF], and a continuation byte.  Every separator and keyword the
      program looks for is ASCII, so searching, splitting and cutting on
      bytes agrees with doing so on UTF-16 code units.
    - A JSON number is carried by the text [String(n)] renders it as.
    - An exception is a value of [JsError.t]; code that may throw lives in
      the [completion] monad, and [try ... catch] is a [match] on it.
    - The HTTP client (axios) and the clock ([Date.now]) are outside the
      program: the handler is a tree of requests to them ([action]). *)

From Stdlib Require Import String Ascii List ZArith NArith Lia Bool DecimalString.
From Stdlib Require Import Permutation Sorted.
Import ListNotations.
Local Open Scope string_scope.

(** ** String primitives of the JavaScript runtime *)

Module JsString.

(** [s.startsWith(p)]. *)
Definition startsWith (s p : string) : bool := String.prefix p s.

(** [s.substring(n)]: what is left of [s] from index [n] on. *)
Fixpoint substring (n : nat) (s : string) : string :=
  match n, s with
  | O, _ => s
  | S _, EmptyString => EmptyString
  | S k, String _ rest => substring k rest
  end.

(** [s.includes(sub)]. *)
Fixpoint includes (s sub : string) : bool :=
  String.prefix sub s ||
  match s with
  | EmptyString => false
  | String _ rest => includes rest sub
  end.

(** [s.split(sep)] for a separator that is not empty.  [skip] counts the
    bytes of a separator occurrence still to be passed over. *)
Fixpoint split_from (sep : string) (skip : nat) (s : string) : list string :=
  match s with
  | EmptyString => [EmptyString]
  | String c rest =>
      match skip with
      | S k => split_from sep k rest
      | O =>
          if String.prefix sep s
          then EmptyString :: split_from sep (String.length sep - 1) rest
          else match split_from sep O rest with
               | piece :: pieces => String c piece :: pieces
               | [] => [String c EmptyString]
               end
      end
  end.

Definition split (s sep : string) : list string := split_from sep O s.

(** [pieces.join(sep)]. *)
Fixpoint join (sep : string) (pieces : list string) : string :=
  match pieces with
  | [] => EmptyString
  | [p] => p
  | p :: rest => p ++ sep ++ join sep rest
  end.

Definition code (c : ascii) : N := N_of_ascii c.

Definition between (lo hi : N) (c : ascii) : bool :=
  (N.leb lo (code c) && N.leb (code c) hi)%bool.

(** White space and line terminators, as [trim] understands them, by the
    length of their UTF-8 form: TAB, LF, VT, FF, CR and SPACE; *)
Definition ws1 (a : ascii) : bool :=
  (between 9 13 a || N.eqb (code a) 32)%bool.

(** U+00A0; *)
Definition ws2 (a b : ascii) : bool :=
  (N.eqb (code a) 194 && N.eqb (code b) 160)%bool.

(** U+1680, U+2000..U+200A, U+2028, U+2029, U+202F, U+205F, U+3000 and
    U+FEFF. *)
Definition ws3 (a b c : ascii) : bool :=
  let x := code a in let y := code b in let z := code c in
  (   (N.eqb x 225 && N.eqb y 154 && N.eqb z 128)
   || (N.eqb x 226 && N.eqb y 128
         && (between 128 138 c || N.eqb z 168 || N.eqb z 169 || N.eqb z 175))
   || (N.eqb x 226 && N.eqb y 129 && N.eqb z 159)
   || (N.eqb x 227 && N.eqb y 128 && N.eqb z 128)
   || (N.eqb x 239 && N.eqb y 187 && N.eqb z 191))%bool.

(** Drops the white space [s] starts with; [w1], [w2] and [w3] recognise
    a white space character of one, two and three bytes. *)
Fixpoint strip (w1 : ascii -> bool) (w2 : ascii -> ascii -> bool)
         (w3 : ascii -> ascii -> ascii -> bool) (s : string) : string :=
  match s with
  | EmptyString => EmptyString
  | String a s1 =>
      if w1 a then strip w1 w2 w3 s1 else
      match s1 with
      | EmptyString => s
      | String b s2 =>
          if w2 a b then strip w1 w2 w3 s2 else
          match s2 with
          | EmptyString => s
          | String c s3 => if w3 a b c then strip w1 w2 w3 s3 else s
          end
      end
  end.

Fixpoint reverse (s : string) : string :=
  match s with
  | EmptyString => EmptyString
  | String c rest => reverse rest ++ String c EmptyString
  end.

Definition trimStart (s : string) : string := strip ws1 ws2 ws3 s.

Definition trimEnd (s : string) : string :=
  reverse (strip ws1 (fun a b => ws2 b a) (fun a b c => ws3 c b a) (reverse s)).

(** [s.trim()]. *)
Definition trim (s : string) : string := trimEnd (trimStart s).

(** [s.toLowerCase()] on the ASCII letters; the program applies it to
    the method only, which is [GET] or [POST] by then. *)
Definition lower (c : ascii) : ascii :=
  if between 65 90 c then ascii_of_N (code c + 32) else c.

Fixpoint toLowerCase (s : string) : string :=
  match s with
  | EmptyString => EmptyString
  | String c rest => String (lower c) (toLowerCase rest)
  end.

(** The characters [encodeURIComponent] leaves alone: letters, digits
    and [- _ . ! ~ * ' ( )]. *)
Definition unreserved (c : ascii) : bool :=
  (between 65 90 c || between 97 122 c || between 48 57 c
   || existsb (N.eqb (code c)) [45; 95; 46; 33; 126; 42; 39; 40; 41]%N)%bool.

Definition hex_digit (n : N) : ascii :=
  if N.ltb n 10 then ascii_of_N (48 + n) else ascii_of_N (55 + n).

(** [s.isWellFormed()]: [s] holds no lone surrogate.  The byte [ED] only
    ever starts a character, and a byte from [A0] on after it makes that
    character a surrogate. *)
Fixpoint isWellFormed (s : string) : bool :=
  match s with
  | EmptyString => true
  | String a rest =>
      match rest with
      | String b _ =>
          if (N.eqb (code a) 237 && N.leb 160 (code b))%bool then false
          else isWellFormed rest
      | EmptyString => true
      end
  end.

(** The encoding [encodeURIComponent] applies to a string that is well
    formed: every other byte of the UTF-8 form becomes [%XX], in upper-case
    hexadecimal. *)
Fixpoint encodeURIComponent (s : string) : string :=
  match s with
  | EmptyString => EmptyString
  | String c rest =>
      if unreserved c then String c (encodeURIComponent rest)
      else String "%" (String (hex_digit (code c / 16))
             (String (hex_digit (code c mod 16)) (encodeURIComponent rest)))
  end.

(** [String(n)] for an integer. *)
Definition of_nat (n : nat) : string := NilZero.string_of_uint (Nat.to_uint n).
Definition of_Z (z : Z) : string := NilZero.string_of_int (Z.to_int z).

End JsString.

Import JsString.

(** ** Values *)

(** What [JSON.parse] yields.  The fields of an object, under distinct
    keys, are listed in the order they were inserted. *)
#[warnings="-register-all"]
Inductive json : Type :=
| JNull
| JBool (b : bool)
| JNum (text : string)
| JStr (s : string)
| JArr (items : list json)
| JObj (fields : list (string * json)).

(** The empty object [{}]. *)
Definition empty_object : json := JObj [].

(** [!v] *)
Definition falsy (v : json) : bool :=
  match v with
  | JNull | JBool false | JStr EmptyString => true
  | JNum text => String.eqb text "0"
  | _ => false
  end.

(** [Object.hasOwn(object, key)] for the object with these fields. *)
Definition hasOwn (fields : list (string * json)) (key : string) : bool :=
  existsb (fun field => String.eqb (fst field) key) fields.

(** The response of the HTTP client: [status], [statusText], [data]. *)
Module Response.
Record t : Type := { status : Z; statusText : string; data : json }.
End Response.

(** An exception: an [Error] with its [message], and the [response] the HTTP
    client attaches when the upstream server answered with an error status. *)
Module JsError.
Record t : Type := { message : string; response : option Response.t }.
End JsError.

(** [new Error(message)] *)
Definition Error (message : string) : JsError.t :=
  {| JsError.message := message; JsError.response := None |}.

(** Exceptions of the runtime itself, with the text V8 gives them. *)
Definition TypeError_null_to_object : JsError.t :=
  Error "Cannot convert undefined or null to object".
Definition TypeError_split_not_function : JsError.t :=
  Error "reqline.split is not a function".
Definition TypeError_object_to_primitive : JsError.t :=
  Error "Cannot convert object to primitive value".
Definition URIError_malformed : JsError.t := Error "URI malformed".

(** The outcome of code that may throw. *)
Inductive completion (A : Type) : Type :=
| Normal (a : A)
| Throw (e : JsError.t).
Arguments Normal {A} a.
Arguments Throw {A} e.

Definition bind {A B : Type} (c : completion A) (k : A -> completion B)
  : completion B :=
  match c with
  | Normal a => k a
  | Throw e => Throw e
  end.

Notation "x <- c ;; k" := (bind c (fun x => k))
  (at level 61, c at next level, right associativity).

(** [for (const x of xs) f(x)] collecting the results; stops at the first
    exception. *)
Fixpoint for_each {A B : Type} (f : A -> completion B) (xs : list A)
  : completion (list B) :=
  match xs with
  | [] => Normal []
  | x :: rest => y <- f x ;; ys <- for_each f rest ;; Normal (y :: ys)
  end.

(** [String(v)], as [encodeURIComponent] applies it to its argument.  An
    array gives the texts of its elements between commas, with nothing for
    [null].  An object gives what the [toString] it inherits returns.  A
    field of its own called [toString] hides that method and is no
    function, and [valueOf] returns the object itself, which leaves no
    way to a primitive value: a [TypeError]. *)
Fixpoint ToString (v : json) : completion string :=
  match v with
  | JNull => Normal "null"
  | JBool true => Normal "true"
  | JBool false => Normal "false"
  | JNum text => Normal text
  | JStr s => Normal s
  | JArr items =>
      pieces <- for_each (fun element =>
                            match element with
                            | JNull => Normal ""
                            | _ => ToString element
                            end) items ;;
      Normal (join "," pieces)
  | JObj fields =>
      if hasOwn fields "toString" then Throw TypeError_object_to_primitive
      else Normal "[object Object]"
  end.

(** ** Own properties and their order *)

Module OwnProperties.

Definition is_digit (c : ascii) : bool := between 48 57 c.

Fixpoint digits_value (acc : N) (s : string) : option N :=
  match s with
  | EmptyString => Some acc
  | String c rest =>
      if is_digit c then digits_value (10 * acc + (code c - 48)) rest else None
  end.

(** An array index is a key that is the canonical decimal form of an
    integer from 0 to 2^32 - 2. *)
Definition array_index (key : string) : option N :=
  match key with
  | EmptyString => None
  | String c rest =>
      if (N.eqb (code c) 48 && negb (String.eqb rest ""))%bool then None
      else match digits_value 0 key with
           | Some n => if N.leb n 4294967294 then Some n else None
           | None => None
           end
  end.

Fixpoint insert_by_index {A : Type} (n : N) (x : A) (sorted : list (N * A))
  : list (N * A) :=
  match sorted with
  | [] => [(n, x)]
  | (m, y) :: rest =>
      if N.ltb n m then (n, x) :: sorted else (m, y) :: insert_by_index n x rest
  end.

(** The fields whose key is an array index, in ascending order of it. *)
Fixpoint indexed {A : Type} (fields : list (string * A)) : list (N * (string * A)) :=
  match fields with
  | [] => []
  | (k, v) :: rest =>
      match array_index k with
      | Some n => insert_by_index n (k, v) (indexed rest)
      | None => indexed rest
      end
  end.

(** The other fields, in the order of insertion. *)
Definition named {A : Type} (fields : list (string * A)) : list (string * A) :=
  filter (fun kv => match array_index (fst kv) with Some _ => false | None => true end)
         fields.

(** The order in which [Object.keys] and [Object.entries] enumerate the
    properties of an object: array indices first, ascending, then the
    other keys as inserted. *)
Definition own_order {A : Type} (fields : list (string * A)) : list (string * A) :=
  map snd (indexed fields) ++ named fields.

(** The elements of an array under their indices, from [i] on. *)
Fixpoint numbered {A : Type} (i : nat) (xs : list A) : list (string * A) :=
  match xs with
  | [] => []
  | x :: rest => (of_nat i, x) :: numbered (S i) rest
  end.

(** The number of bytes of the UTF-8 character that starts with [c]. *)
Definition char_bytes (c : ascii) : nat :=
  if N.ltb (code c) 192 then 1
  else if N.ltb (code c) 224 then 2
  else if N.ltb (code c) 240 then 3
  else 4.

(** The code point of the character of four bytes [a b c d]. *)
Definition code_point (a b c d : ascii) : N :=
  (code a mod 8 * 262144 + code b mod 64 * 4096 + code c mod 64 * 64 + code d mod 64)%N.

(** The three bytes of the surrogate [unit], from [D800] to [DFFF]. *)
Definition surrogate (unit : N) : string :=
  String (ascii_of_N 237)
    (String (ascii_of_N (128 + unit / 64 mod 64))
       (String (ascii_of_N (128 + unit mod 64)) EmptyString)).

(** The surrogate pair of a code point outside the basic plane. *)
Definition surrogate_pair (point : N) : list string :=
  [surrogate (55296 + (point - 65536) / 1024);
   surrogate (56320 + (point - 65536) mod 1024)].

(** The UTF-16 code units of a string, each as a string of its own.  A
    character outside the basic plane, of four bytes, takes two units, the
    halves of its surrogate pair. *)
Fixpoint units_from (skip : nat) (s : string) : list string :=
  match s with
  | EmptyString => []
  | String a rest =>
      match skip with
      | S k => units_from k rest
      | O =>
          let n := char_bytes a in
          (match n, rest with
           | 4, String b (String c (String d _)) => surrogate_pair (code_point a b c d)
           | _, _ => [String.substring 0 n s]
           end ++ units_from (n - 1) rest)%list
      end
  end.

Definition code_units (s : string) : list string := units_from 0 s.

(** [Object.entries(v)]: the own enumerable properties of [v] once
    converted to an object. *)
Definition Object_entries (v : json) : completion (list (string * json)) :=
  match v with
  | JNull => Throw TypeError_null_to_object
  | JBool _ | JNum _ => Normal []
  | JStr s => Normal (numbered 0 (map JStr (code_units s)))
  | JArr items => Normal (numbered 0 items)
  | JObj fields => Normal (own_order fields)
  end.

(** [Object.keys(v)] *)
Definition Object_keys (v : json) : completion (list string) :=
  entries <- Object_entries v ;; Normal (map fst entries).

End OwnProperties.

Import OwnProperties.

(** ** The parser *)

(** The object [parseReqline] fills in, called [result] there; [method] and
    [url] start out as [null]. *)
Module Draft.
Record t : Type :=
  { method : option string;
    url : option string;
    headers : json;
    query : json;
    body : json }.
End Draft.

(** The same object once returned: the closing checks of [parseReqline]
    have established that [method] and [url] hold a string. *)
Module Descriptor.
Record t : Type :=
  { method : string;
    url : string;
    headers : json;
    query : json;
    body : json }.
End Descriptor.

Section Parser.

(** [JSON.parse]: the value a text denotes, or [None] where it throws a
    [SyntaxError]. *)
Variable JSON_parse : string -> option json.

(** The [try { ... = JSON.parse(text) } catch] of the named section. *)
Definition parse_section (name text : string) : completion json :=
  match JSON_parse text with
  | Some v => Normal v
  | None => Throw (Error ("Invalid JSON format in " ++ name ++ " section"))
  end.

(** The body of the loop, for the segment [parts[i]]. *)
Definition parse_part (i : nat) (segment : string) (result : Draft.t)
  : completion Draft.t :=
  let part := trim segment in
  if Nat.eqb i 0 then
    if negb (startsWith part "HTTP ") then
      Throw (Error "Missing required HTTP keyword")
    else
      let methodPart := trim (substring 5 part) in
      if String.eqb methodPart "" then
        Throw (Error "Missing HTTP method")
      else if (negb (String.eqb methodPart "GET")
               && negb (String.eqb methodPart "POST"))%bool then
        Throw (Error "Invalid HTTP method. Only GET and POST are supported")
      else
        Normal {| Draft.method := Some methodPart;
                  Draft.url := Draft.url result;
                  Draft.headers := Draft.headers result;
                  Draft.query := Draft.query result;
                  Draft.body := Draft.body result |}
  else if Nat.eqb i 1 then
    if negb (startsWith part "URL ") then
      Throw (Error "Missing required URL keyword")
    else
      let urlPart := trim (substring 4 part) in
      if String.eqb urlPart "" then
        Throw (Error "Missing URL value")
      else if (negb (startsWith urlPart "http://")
               && negb (startsWith urlPart "https://"))%bool then
        Throw (Error "Invalid URL format. Must start with http:// or https://")
      else
        let urlParts := split urlPart "/" in
        if Nat.ltb (List.length urlParts) 3 then
          Throw (Error "Invalid URL format. Missing domain or path")
        else
          Normal {| Draft.method := Draft.method result;
                    Draft.url := Some urlPart;
                    Draft.headers := Draft.headers result;
                    Draft.query := Draft.query result;
                    Draft.body := Draft.body result |}
  else if startsWith part "HEADERS " then
    let headersPart := trim (substring 8 part) in
    if String.eqb headersPart "" then Normal result
    else
      v <- parse_section "HEADERS" headersPart ;;
      Normal {| Draft.method := Draft.method result;
                Draft.url := Draft.url result;
                Draft.headers := v;
                Draft.query := Draft.query result;
                Draft.body := Draft.body result |}
  else if startsWith part "QUERY " then
    let queryPart := trim (substring 6 part) in
    if String.eqb queryPart "" then Normal result
    else
      v <- parse_section "QUERY" queryPart ;;
      Normal {| Draft.method := Draft.method result;
                Draft.url := Draft.url result;
                Draft.headers := Draft.headers result;
                Draft.query := v;
                Draft.body := Draft.body result |}
  else if startsWith part "BODY " then
    let bodyPart := trim (substring 5 part) in
    if String.eqb bodyPart "" then Normal result
    else
      v <- parse_section "BODY" bodyPart ;;
      Normal {| Draft.method := Draft.method result;
                Draft.url := Draft.url result;
                Draft.headers := Draft.headers result;
                Draft.query := Draft.query result;
                Draft.body := v |}
  else
    Throw (Error ("Unknown keyword: " ++ hd "" (split part " "))).

(** [for (let i = ...; i < parts.length; i++)], from index [i] on. *)
Fixpoint parse_parts (i : nat) (parts : list string) (result : Draft.t)
  : completion Draft.t :=
  match parts with
  | [] => Normal result
  | segment :: rest =>
      result' <- parse_part i segment result ;;
      parse_parts (S i) rest result'
  end.

(** [!s] for a string that may be [null]. *)
Definition missing (s : option string) : bool :=
  match s with
  | None => true
  | Some text => String.eqb text ""
  end.

Definition initial : Draft.t :=
  {| Draft.method := None;
     Draft.url := None;
     Draft.headers := empty_object;
     Draft.query := empty_object;
     Draft.body := empty_object |}.

(** The checks after the loop, and [return result]. *)
Definition finish (result : Draft.t) : completion Descriptor.t :=
  if missing (Draft.method result) then
    Throw (Error "Missing required HTTP keyword")
  else if missing (Draft.url result) then
    Throw (Error "Missing required URL keyword")
  else
    Normal {| Descriptor.method := match Draft.method result with Some m => m | None => "" end;
              Descriptor.url := match Draft.url result with Some u => u | None => "" end;
              Descriptor.headers := Draft.headers result;
              Descriptor.query := Draft.query result;
              Descriptor.body := Draft.body result |}.

Definition parseReqline (reqline : string) : completion Descriptor.t :=
  let parts := split reqline " | " in
  if Nat.ltb (List.length parts) 2 then
    Throw (Error "Invalid reqline format. Expected at least HTTP and URL parts.")
  else
    result <- parse_parts 0 parts initial ;;
    finish result.

End Parser.

(** ** The URL builder *)

(** [encodeURIComponent(uriComponent)], as the program calls it: the
    argument is converted to a string, and the encoding throws a [URIError]
    where that string holds a lone surrogate. *)
Module URI.
Definition encodeURIComponent (uriComponent : json) : completion string :=
  componentString <- ToString uriComponent ;;
  if isWellFormed componentString
  then Normal (JsString.encodeURIComponent componentString)
  else Throw URIError_malformed.
End URI.

(** One [key=value] pair of the query string: the key is encoded before
    the value. *)
Definition encode_pair (entry : string * json) : completion string :=
  key <- URI.encodeURIComponent (JStr (fst entry)) ;;
  value <- URI.encodeURIComponent (snd entry) ;;
  Normal (key ++ "=" ++ value).

Definition buildFullUrl (baseUrl : string) (queryParams : json) : completion string :=
  if falsy queryParams then Normal baseUrl
  else
    keys <- Object_keys queryParams ;;
    if Nat.eqb (List.length keys) 0 then Normal baseUrl
    else
      let separator := if includes baseUrl "?" then "&" else "?" in
      entries <- Object_entries queryParams ;;
      pairs <- for_each encode_pair entries ;;
      Normal (baseUrl ++ separator ++ join "&" pairs).

(** ** The endpoint *)

(** Modelled from the spec: the status constants of [helpers.http_statuses],
    which the server framework provides; the specification gives their
    values as 200 and 400. *)
Definition HTTP_200_OK : Z := 200.
Definition HTTP_400_BAD_REQUEST : Z := 400.

(** What the handler passes to the HTTP client; [data] is only set on some
    paths. *)
Module RequestConfig.
Record t : Type :=
  { method : string;
    url : string;
    headers : json;
    timeout : Z;
    data : option json }.
End RequestConfig.

(** The [request] and [response] halves of the success envelope. *)
Module RequestEcho.
Record t : Type :=
  { query : json; body : json; headers : json; full_url : string }.
End RequestEcho.

Module ResponseReport.
Record t : Type :=
  { http_status : Z;
    duration : Z;
    request_start_timestamp : Z;
    request_stop_timestamp : Z;
    response_data : json }.
End ResponseReport.

Inductive payload : Type :=
| Failure (error : bool) (message : string)
| Envelope (request : RequestEcho.t) (response : ResponseReport.t).

(** What the handler returns to the framework. *)
Module Reply.
Record t : Type := { status : Z; data : payload }.
End Reply.

(** The request body [rc.body]; [reqline] is [None] when the field is
    absent. *)
Module RequestBody.
Record t : Type := { reqline : option json }.
End RequestBody.

(** How the promise [axios(requestConfig)] settles. *)
Inductive settled : Type :=
| Fulfilled (response : Response.t)
| Rejected (error : JsError.t).

(** The handler as the requests it makes of its surroundings: it reads the
    clock, awaits the HTTP client, or returns. *)
Inductive action : Type :=
| Return (reply : Reply.t)
| DateNow (k : Z -> action)
| Await (requestConfig : RequestConfig.t) (k : settled -> action).

Definition bad_request (message : string) : Reply.t :=
  {| Reply.status := HTTP_400_BAD_REQUEST;
     Reply.data := Failure true message |}.

(** The [catch (error)] block. *)
Definition on_error (error : JsError.t) : Reply.t :=
  let message := JsError.message error in
  if (includes message "Invalid reqline format"
      || includes message "Missing required"
      || includes message "Invalid HTTP method"
      || includes message "Invalid JSON format"
      || includes message "Unknown keyword")%bool
  then bad_request message
  else
    match JsError.response error with
    | Some response =>
        bad_request ("HTTP request failed: " ++ of_Z (Response.status response)
                       ++ " " ++ Response.statusText response)
    | None => bad_request ("Network error: " ++ message)
    end.

Section Handler.

Variable JSON_parse : string -> option json.

(** [reqline.split] exists on strings only. *)
Definition as_string (reqline : json) : completion string :=
  match reqline with
  | JStr text => Normal text
  | _ => Throw TypeError_split_not_function
  end.

(** The statements from the call of [parseReqline] to the completed
    [requestConfig]. *)
Definition prepare (reqline : json)
  : completion (Descriptor.t * string * RequestConfig.t) :=
  text <- as_string reqline ;;
  parsed <- parseReqline JSON_parse text ;;
  fullUrl <- buildFullUrl (Descriptor.url parsed) (Descriptor.query parsed) ;;
  let requestConfig :=
    {| RequestConfig.method := toLowerCase (Descriptor.method parsed);
       RequestConfig.url := fullUrl;
       RequestConfig.headers := Descriptor.headers parsed;
       RequestConfig.timeout := 10000;
       RequestConfig.data := None |} in
  if String.eqb (Descriptor.method parsed) "POST" then
    keys <- Object_keys (Descriptor.body parsed) ;;
    if Nat.ltb 0 (List.length keys) then
      Normal (parsed, fullUrl,
              {| RequestConfig.method := RequestConfig.method requestConfig;
                 RequestConfig.url := RequestConfig.url requestConfig;
                 RequestConfig.headers := RequestConfig.headers requestConfig;
                 RequestConfig.timeout := RequestConfig.timeout requestConfig;
                 RequestConfig.data := Some (Descriptor.body parsed) |})
    else Normal (parsed, fullUrl, requestConfig)
  else Normal (parsed, fullUrl, requestConfig).

Definition handler (rc_body : RequestBody.t) : action :=
  match RequestBody.reqline rc_body with
  | None => Return (bad_request "Missing reqline parameter")
  | Some reqline =>
      if falsy reqline then Return (bad_request "Missing reqline parameter")
      else
        match prepare reqline with
        | Throw error => Return (on_error error)
        | Normal (parsed, fullUrl, requestConfig) =>
            DateNow (fun requestStartTimestamp =>
            Await requestConfig (fun outcome =>
              match outcome with
              | Rejected error => Return (on_error error)
              | Fulfilled response =>
                  DateNow (fun requestStopTimestamp =>
                    let duration := (requestStopTimestamp - requestStartTimestamp)%Z in
                    Return
                      {| Reply.status := HTTP_200_OK;
                         Reply.data :=
                           Envelope
                             {| RequestEcho.query := Descriptor.query parsed;
                                RequestEcho.body := Descriptor.body parsed;
                                RequestEcho.headers := Descriptor.headers parsed;
                                RequestEcho.full_url := fullUrl |}
                             {| ResponseReport.http_status := Response.status response;
                                ResponseReport.duration := duration;
                                ResponseReport.request_start_timestamp := requestStartTimestamp;
                                ResponseReport.request_stop_timestamp := requestStopTimestamp;
                                ResponseReport.response_data := Response.data response |} |})
              end))
        end
  end.

End Handler.

(** ** Running the handler *)

(** The surroundings of one invocation: [clock n] is what the [n]-th call
    of [Date.now] returns, and [axios] how the HTTP client settles a
    request. *)
Record world : Type :=
  { clock : nat -> Z;
    axios : RequestConfig.t -> settled }.

(** The reply of an action in a world, and the requests the HTTP client
    received on the way; [n] counts the clock readings so far. *)
Fixpoint run (w : world) (n : nat) (a : action) : Reply.t * list RequestConfig.t :=
  match a with
  | Return reply => (reply, [])
  | DateNow k => run w (S n) (k (clock w n))
  | Await requestConfig k =>
      let (reply, sent) := run w n (k (axios w requestConfig)) in
      (reply, requestConfig :: sent)
  end.

Definition respond (JSON_parse : string -> option json) (w : world)
           (rc_body : RequestBody.t) : Reply.t :=
  fst (run w 0 (handler JSON_parse rc_body)).

Definition requests (JSON_parse : string -> option json) (w : world)
           (rc_body : RequestBody.t) : list RequestConfig.t :=
  snd (run w 0 (handler JSON_parse rc_body)).

(** ** Sample surroundings for closed examples *)

Definition dquote : string := String "034"%char EmptyString.

(** The text [{"a":1}]. *)
Definition text_a1 : string := "{" ++ dquote ++ "a" ++ dquote ++ ":1}".

(** A decoder for the JSON texts the examples below contain; it agrees
    with [JSON.parse] on each text it accepts, and the examples give it no
    other well-formed text. *)
Definition sample_JSON_parse (text : string) : option json :=
  if String.eqb text "{}" then Some (JObj [])
  else if String.eqb text text_a1 then Some (JObj [("a", JNum "1")])
  else None.

(** The same decoder, knowing the text [null] as well. *)
Definition sample_JSON_parse_with_null (text : string) : option json :=
  if String.eqb text "null" then Some JNull else sample_JSON_parse text.

(** The text [{"a":{"toString":1}}]: the value of [a] is an object with a
    field of its own called [toString]. *)
Definition text_own_toString : string :=
  "{" ++ dquote ++ "a" ++ dquote ++ ":{" ++ dquote ++ "toString" ++ dquote ++ ":1}}".

(** The text [{"q":"\ud800"}]: the value of [q] is a string of one code
    unit, the surrogate [D800] alone. *)
Definition text_lone_surrogate : string :=
  "{" ++ dquote ++ "q" ++ dquote ++ ":" ++ dquote ++ "\ud800" ++ dquote ++ "}".

(** The same decoder, knowing these two texts as well. *)
Definition sample_JSON_parse_with_odd_values (text : string) : option json :=
  if String.eqb text text_own_toString
  then Some (JObj [("a", JObj [("toString", JNum "1")])])
  else if String.eqb text text_lone_surrogate
  then Some (JObj [("q", JStr (surrogate 55296))])
  else sample_JSON_parse_with_null text.

(** A world whose upstream server answers every request with 200. *)
Definition sample_world : world :=
  {| clock := fun n => (1700000000000 + 7 * Z.of_nat n)%Z;
     axios := fun _ =>
       Fulfilled {| Response.status := 200;
                    Response.statusText := "OK";
                    Response.data := JStr "pong" |} |}.

(** A world whose HTTP client rejects every request before it is sent, the
    way Node does for a header name that is no HTTP token; the error has no
    [response]. *)
Definition refusing_message : string :=
  "Header name must be a valid HTTP token [" ++ dquote ++ "Unknown keyword" ++ dquote ++ "]".

Definition refusing_world : world :=
  {| clock := fun n => (1700000000000 + 7 * Z.of_nat n)%Z;
     axios := fun _ => Rejected (Error refusing_message) |}.

(** A request body carrying the reqline [text]. *)
Definition with_reqline (text : string) : RequestBody.t :=
  {| RequestBody.reqline := Some (JStr text) |}.

Definition without_reqline : RequestBody.t :=
  {| RequestBody.reqline := None |}.

(** ** Notions used in the statements *)

(** The first word of a segment, as the specification words it: the bytes
    before the first space. *)
Fixpoint first_word (s : string) : string :=
  match s with
  | EmptyString => EmptyString
  | String c rest =>
      if Ascii.eqb c " " then EmptyString else String c (first_word rest)
  end.

(** A key with the text of its value: [entry] has the key of [field] and
    the text [String(value)] of its value, which exists, and neither holds
    a lone surrogate. *)
Definition text_of (field : string * json) (entry : string * string) : Prop :=
  fst entry = fst field
  /\ ToString (snd field) = Normal (snd entry)
  /\ isWellFormed (fst entry) = true
  /\ isWellFormed (snd entry) = true.

(** The pair [key=value] of the query string, each side percent-encoded on
    its own. *)
Definition key_value (entry : string * string) : string :=
  encodeURIComponent (fst entry) ++ "=" ++ encodeURIComponent (snd entry).

(** The method has been set, to [GET] or to [POST]. *)
Definition get_or_post (method : option string) : Prop :=
  method = Some "GET" \/ method = Some "POST".

(** The URL has been set, to a text with one of the two schemes. *)
Definition http_or_https (url : option string) : Prop :=
  exists text,
    url = Some text
    /\ (startsWith text "http://" = true \/ startsWith text "https://" = true).

(** A value has own properties: [Object.keys(v).length > 0]. *)
Definition populated (v : json) : Prop :=
  exists keys, Object_keys v = Normal keys /\ keys <> [].

(** The statements of the handler that can throw before the HTTP client
    is called, in their order: [reqline.split], within [parseReqline], on a
    value that is no string; [parseReqline] itself; [buildFullUrl]; and
    [Object.keys(parsed.body)], reached for a POST. *)
Definition thrown_before_request (JSON_parse : string -> option json)
           (reqline : json) (error : JsError.t) : Prop :=
  ((forall text, reqline <> JStr text) /\ error = TypeError_split_not_function)
  \/ exists text,
      reqline = JStr text
      /\ (parseReqline JSON_parse text = Throw error
          \/ exists parsed,
              parseReqline JSON_parse text = Normal parsed
              /\ (buildFullUrl (Descriptor.url parsed) (Descriptor.query parsed)
                  = Throw error
                  \/ exists fullUrl,
                      buildFullUrl (Descriptor.url parsed) (Descriptor.query parsed)
                      = Normal fullUrl
                      /\ Descriptor.method parsed = "POST"
                      /\ Object_keys (Descriptor.body parsed) = Throw error)).

(** The error message contains one of the markers the [catch] block looks
    for. *)
Definition has_marker (message : string) : bool :=
  existsb (includes message)
          ["Invalid reqline format"; "Missing required"; "Invalid HTTP method";
           "Invalid JSON format"; "Unknown keyword"].

(** A computation that, if it throws, throws an error without a
    [response]. *)
Definition plain {A : Type} (c : completion A) : Prop :=
  match c with
  | Normal _ => True
  | Throw error => JsError.response error = None
  end.

(** The messages with which [parseReqline] fails. *)
Definition parser_message (message : string) : Prop :=
  In message
     ["Invalid reqline format. Expected at least HTTP and URL parts.";
      "Missing required HTTP keyword";
      "Invalid HTTP method. Only GET and POST are supported";
      "Missing required URL keyword";
      "Invalid URL format. Must start with http:// or https://";
      "Invalid JSON format in HEADERS section";
      "Invalid JSON format in QUERY section";
      "Invalid JSON format in BODY section"]
  \/ exists word, message = "Unknown keyword: " ++ word.

Definition fails_as_parser {A : Type} (c : completion A) : Prop :=
  match c with
  | Normal _ => True
  | Throw error => error = Error (JsError.message error)
                   /\ parser_message (JsError.message error)
  end.

(** ** Notions used in the further properties *)

(** The keyword of an optional section. *)
Inductive section_keyword : Type := HEADERS | QUERY | BODY.

Definition keyword_text (k : section_keyword) : string :=
  match k with
  | HEADERS => "HEADERS"
  | QUERY => "QUERY"
  | BODY => "BODY"
  end.

(** The keyword a trimmed segment starts with, tried in the order of the
    parser. *)
Definition keyword_of (part : string) : option section_keyword :=
  if startsWith part "HEADERS " then Some HEADERS
  else if startsWith part "QUERY " then Some QUERY
  else if startsWith part "BODY " then Some BODY
  else None.

(** What follows the keyword and its space, trimmed. *)
Definition remainder (k : section_keyword) (part : string) : string :=
  trim (substring (String.length (keyword_text k) + 1) part).

(** The draft with the section [k] set to [v]. *)
Definition store (k : section_keyword) (v : json) (result : Draft.t) : Draft.t :=
  {| Draft.method := Draft.method result;
     Draft.url := Draft.url result;
     Draft.headers := match k with HEADERS => v | _ => Draft.headers result end;
     Draft.query := match k with QUERY => v | _ => Draft.query result end;
     Draft.body := match k with BODY => v | _ => Draft.body result end |}.

(** The section [k] of a descriptor. *)
Definition section_value (k : section_keyword) (d : Descriptor.t) : json :=
  match k with
  | HEADERS => Descriptor.headers d
  | QUERY => Descriptor.query d
  | BODY => Descriptor.body d
  end.

(** The section [k] of the draft. *)
Definition draft_section (k : section_keyword) (result : Draft.t) : json :=
  match k with
  | HEADERS => Draft.headers result
  | QUERY => Draft.query result
  | BODY => Draft.body result
  end.

(** The bytes of a string. *)
Definition bytes (s : string) : list ascii := list_ascii_of_string s.

(** Percent-decoding, as a query-string reader does it: [%XX] with two
    hexadecimal digits stands for the byte of that value. *)
Definition hex_value (c : ascii) : option N :=
  if between 48 57 c then Some (code c - 48)%N
  else if between 65 70 c then Some (code c - 55)%N
  else if between 97 102 c then Some (code c - 87)%N
  else None.

Fixpoint percent_decode (s : string) : string :=
  match s with
  | EmptyString => EmptyString
  | String c rest =>
      if Ascii.eqb c "%" then
        match rest with
        | String h (String l rest') =>
            match hex_value h, hex_value l with
            | Some a, Some b => String (ascii_of_N (16 * a + b)%N) (percent_decode rest')
            | _, _ => String c (percent_decode rest)
            end
        | _ => String c (percent_decode rest)
        end
      else String c (percent_decode rest)
  end.

(** Reading a query string back: the pairs between [&], each cut at its
    first [=] and percent-decoded. *)
Definition read_pair (pair : string) : string * string :=
  match split pair "=" with
  | key :: value :: _ => (percent_decode key, percent_decode value)
  | [key] => (percent_decode key, EmptyString)
  | [] => (EmptyString, EmptyString)
  end.

Definition read_query (queryString : string) : list (string * string) :=
  map read_pair (split queryString "&").

(** A computation that, if it throws, does not throw the error for a
    reqline of fewer than two segments. *)
Definition no_format_error {A : Type} (c : completion A) : Prop :=
  match c with
  | Normal _ => True
  | Throw error =>
      JsError.message error
      <> "Invalid reqline format. Expected at least HTTP and URL parts."
  end.

(** * Properties *)

(** ** Tactics *)

(** Splits on the conditions of the parser, keeping each as an equation. *)
Ltac split_ifs :=
  repeat match goal with
         | H : context [if ?b then _ else _] |- _ => destruct b eqn:?
         | |- context [if ?b then _ else _] => destruct b eqn:?
         end.

(** Splits a conjunction into its members, and an equivalence into its
    two directions. *)
Ltac conjuncts :=
  repeat match goal with
         | |- _ /\ _ => split
         | |- _ <-> _ => split
         end.

Ltac invert_normal :=
  repeat match goal with
         | H : Normal _ = Normal _ |- _ => inversion H; subst; clear H
         | H : Throw _ = Normal _ |- _ => discriminate H
         | H : Normal _ = Throw _ |- _ => discriminate H
         end.

(** ** The examples of the specification *)

Example parse_post_with_body :
  parseReqline sample_JSON_parse ("HTTP POST | URL http://x.com/y | BODY " ++ text_a1)
  = Normal {| Descriptor.method := "POST";
              Descriptor.url := "http://x.com/y";
              Descriptor.headers := JObj [];
              Descriptor.query := JObj [];
              Descriptor.body := JObj [("a", JNum "1")] |}.
Proof. vm_compute; reflexivity. Qed.

Example parse_without_http_keyword :
  parseReqline sample_JSON_parse "GET | URL https://x.com/"
  = Throw (Error "Missing required HTTP keyword").
Proof. vm_compute; reflexivity. Qed.

Example parse_put :
  parseReqline sample_JSON_parse "HTTP PUT | URL https://x.com/"
  = Throw (Error "Invalid HTTP method. Only GET and POST are supported").
Proof. vm_compute; reflexivity. Qed.

Example parse_ftp :
  parseReqline sample_JSON_parse "HTTP GET | URL ftp://x.com/"
  = Throw (Error "Invalid URL format. Must start with http:// or https://").
Proof. vm_compute; reflexivity. Qed.

Example parse_unknown_keyword :
  parseReqline sample_JSON_parse "HTTP GET | URL https://x.com/ | FOO bar"
  = Throw (Error "Unknown keyword: FOO").
Proof. vm_compute; reflexivity. Qed.

Example parse_broken_json :
  parseReqline sample_JSON_parse "HTTP GET | URL https://x.com/ | QUERY {"
  = Throw (Error "Invalid JSON format in QUERY section").
Proof. vm_compute; reflexivity. Qed.

Example build_with_query :
  buildFullUrl "https://x.com/search?lang=en"
               (JObj [("q", JStr "a b&c"); ("page", JNum "2")])
  = Normal "https://x.com/search?lang=en&q=a%20b%26c&page=2".
Proof. vm_compute; reflexivity. Qed.

Example successful_get :
  run sample_world 0
      (handler sample_JSON_parse (with_reqline "HTTP GET | URL https://api.example.com/x"))
  = ({| Reply.status := 200;
        Reply.data :=
          Envelope
            {| RequestEcho.query := JObj [];
               RequestEcho.body := JObj [];
               RequestEcho.headers := JObj [];
               RequestEcho.full_url := "https://api.example.com/x" |}
            {| ResponseReport.http_status := 200;
               ResponseReport.duration := 7;
               ResponseReport.request_start_timestamp := 1700000000000;
               ResponseReport.request_stop_timestamp := 1700000000007;
               ResponseReport.response_data := JStr "pong" |} |},
      [{| RequestConfig.method := "get";
          RequestConfig.url := "https://api.example.com/x";
          RequestConfig.headers := JObj [];
          RequestConfig.timeout := 10000;
          RequestConfig.data := None |}]).
Proof. vm_compute; reflexivity. Qed.

(** ** The monad *)

Lemma bind_normal {A B : Type} (c : completion A) (k : A -> completion B) (b : B) :
  bind c k = Normal b -> exists a, c = Normal a /\ k a = Normal b.
Proof.
  destruct c as [a | e]; simpl; intros H; [exists a; auto | discriminate].
Qed.

Lemma Normal_inj {A : Type} (a b : A) : Normal a = Normal b -> a = b.
Proof. now injection 1. Qed.

(** ** Strings: concatenation, reversal, prefixes *)

Lemma append_empty_right (s : string) : s ++ "" = s.
Proof. induction s as [| c s IH]; simpl; congruence. Qed.

Lemma append_associative (a b c : string) : (a ++ b) ++ c = a ++ (b ++ c).
Proof. induction a as [| x a IH]; simpl; congruence. Qed.

Lemma length_of_append (a b : string) :
  String.length (a ++ b) = String.length a + String.length b.
Proof. induction a as [| x a IH]; simpl; congruence. Qed.

Lemma reverse_append (a b : string) : reverse (a ++ b) = reverse b ++ reverse a.
Proof.
  induction a as [| x a IH]; simpl.
  - now rewrite append_empty_right.
  - now rewrite IH, append_associative.
Qed.

Lemma reverse_reverse (s : string) : reverse (reverse s) = s.
Proof.
  induction s as [| c s IH]; simpl; [reflexivity |].
  now rewrite reverse_append, IH.
Qed.

Lemma length_of_reverse (s : string) : String.length (reverse s) = String.length s.
Proof.
  induction s as [| c s IH]; simpl; [reflexivity |].
  rewrite length_of_append, IH. simpl. lia.
Qed.

Lemma reverse_is_empty (s : string) : reverse s = "" -> s = "".
Proof.
  intros H. apply (f_equal String.length) in H.
  rewrite length_of_reverse in H. now destruct s.
Qed.

Lemma startsWith_cut (s p : string) :
  startsWith s p = true -> s = p ++ substring (String.length p) s.
Proof.
  unfold startsWith. revert s.
  induction p as [| c p IH]; intros s H; [reflexivity |].
  destruct s as [| d s]; simpl in H; [discriminate |].
  destruct (ascii_dec c d) as [<- | _]; [| discriminate].
  simpl. f_equal. now apply IH.
Qed.

(** ** What [trim] leaves behind *)

Section Strip.

Variables (w1 : ascii -> bool) (w2 : ascii -> ascii -> bool)
          (w3 : ascii -> ascii -> ascii -> bool).

(** One step of [strip]: either nothing is dropped, or a white space
    character of one to three bytes is and the rest is stripped in turn. *)
Lemma strip_step (s : string) :
  strip w1 w2 w3 s = s
  \/ exists blank rest,
      s = blank ++ rest /\ 1 <= String.length blank
      /\ strip w1 w2 w3 s = strip w1 w2 w3 rest.
Proof.
  destruct s as [| a [| b [| c s3]]]; simpl.
  - now left.
  - destruct (w1 a); [right; exists (String a ""), ""; simpl; auto | now left].
  - destruct (w1 a); [right; exists (String a ""), (String b ""); simpl; auto |].
    destruct (w2 a b); [right; exists (String a (String b "")), ""; simpl; auto | now left].
  - destruct (w1 a);
      [right; exists (String a ""), (String b (String c s3)); simpl; auto |].
    destruct (w2 a b);
      [right; exists (String a (String b "")), (String c s3); simpl; auto |].
    destruct (w3 a b c);
      [right; exists (String a (String b (String c ""))), s3; simpl; auto | now left].
Qed.

Lemma strip_by_length (n : nat) :
  forall s, String.length s <= n ->
            String.length (strip w1 w2 w3 s) <= String.length s
            /\ strip w1 w2 w3 (strip w1 w2 w3 s) = strip w1 w2 w3 s
            /\ exists blanks, s = blanks ++ strip w1 w2 w3 s.
Proof.
  induction n as [| n IH]; intros s Hn.
  - destruct s; [| simpl in Hn; lia]. repeat split; auto. now exists "".
  - destruct (strip_step s) as [Hsame | (blank & rest & -> & Hblank & Hstep)].
    + rewrite !Hsame. repeat split; auto. now exists "".
    + rewrite length_of_append in Hn |- *.
      destruct (IH rest) as (Hlen & Hidem & (blanks & Hrest)); [lia |].
      rewrite Hstep. repeat split; [lia | assumption |].
      exists (blank ++ blanks). now rewrite append_associative, <- Hrest.
Qed.

Lemma strip_shorter (s : string) :
  String.length (strip w1 w2 w3 s) <= String.length s.
Proof. now apply (strip_by_length (String.length s)). Qed.

Lemma strip_idempotent (s : string) :
  strip w1 w2 w3 (strip w1 w2 w3 s) = strip w1 w2 w3 s.
Proof. now apply (strip_by_length (String.length s)). Qed.

Lemma strip_is_suffix (s : string) : exists blanks, s = blanks ++ strip w1 w2 w3 s.
Proof. now apply (strip_by_length (String.length s)). Qed.

(** A string that is not empty and strips to nothing loses something at
    its head, whatever follows it. *)
Lemma strip_blank_head (u z : string) :
  u <> "" -> strip w1 w2 w3 u = "" ->
  String.length (strip w1 w2 w3 (u ++ z)) < String.length (u ++ z).
Proof.
  intros Hne Hblank.
  destruct u as [| a [| b [| c u3]]]; simpl in *; try congruence.
  - destruct (w1 a); [| discriminate].
    pose proof (strip_shorter z). lia.
  - destruct (w1 a); [pose proof (strip_shorter (String b z)); simpl in *; lia |].
    destruct (w2 a b); [| discriminate].
    pose proof (strip_shorter z). lia.
  - destruct (w1 a);
      [pose proof (strip_shorter (String b (String c (u3 ++ z)))); simpl in *; lia |].
    destruct (w2 a b);
      [pose proof (strip_shorter (String c (u3 ++ z))); simpl in *; lia |].
    destruct (w3 a b c); [| discriminate].
    pose proof (strip_shorter (u3 ++ z)). lia.
Qed.

End Strip.

Section StripBothEnds.

Variables (w1 : ascii -> bool) (w2 : ascii -> ascii -> bool)
          (w3 : ascii -> ascii -> ascii -> bool).

Let back2 := fun a b => w2 b a.
Let back3 := fun a b c => w3 c b a.

(** A string that is not empty and strips to nothing from the front ends
    with white space: read backwards, with whatever follows, it loses
    something at its head. *)
Lemma strip_blank_tail (n : nat) :
  forall r z,
    String.length r <= n -> r <> "" -> strip w1 w2 w3 r = "" ->
    String.length (strip w1 back2 back3 (reverse r ++ z))
    < String.length (reverse r ++ z).
Proof.
  induction n as [| n IH]; intros r z Hn Hne Hblank.
  - destruct r; [congruence | simpl in Hn; lia].
  - destruct r as [| a r1]; [congruence |].
    cbn [strip] in Hblank. cbn [reverse]. rewrite append_associative.
    cbn [append].
    destruct (w1 a) eqn:Ha.
    { destruct r1 as [| b r2].
      - cbn [reverse append strip]. rewrite Ha.
        pose proof (strip_shorter w1 back2 back3 z). simpl. lia.
      - apply IH; [simpl in *; lia | discriminate | assumption]. }
    destruct r1 as [| b r2]; [discriminate |].
    cbn [reverse]. rewrite append_associative. cbn [append].
    destruct (w2 a b) eqn:Hab.
    { destruct r2 as [| c r3].
      - cbn [reverse append strip].
        destruct (w1 b).
        + pose proof (strip_shorter w1 back2 back3 (String a z)). simpl in *. lia.
        + replace (back2 b a) with true by (symmetry; exact Hab).
          pose proof (strip_shorter w1 back2 back3 z). simpl. lia.
      - apply IH; [simpl in *; lia | discriminate | assumption]. }
    destruct r2 as [| c r3]; [discriminate |].
    cbn [reverse]. rewrite append_associative. cbn [append].
    destruct (w3 a b c) eqn:Habc; [| discriminate].
    destruct r3 as [| d r4].
    + cbn [reverse append strip].
      destruct (w1 c).
      * pose proof (strip_shorter w1 back2 back3 (String b (String a z))).
        simpl in *. lia.
      * destruct (back2 c b).
        -- pose proof (strip_shorter w1 back2 back3 (String a z)). simpl in *. lia.
        -- replace (back3 c b a) with true by (symmetry; exact Habc).
           pose proof (strip_shorter w1 back2 back3 z). simpl. lia.
    + apply IH; [simpl in *; lia | discriminate | assumption].
Qed.

End StripBothEnds.

(** After [trim], whatever follows a space inside the result does not
    trim to the empty string: the result ends with a character that is not
    white space. *)
Lemma trim_keeps_text_after_space (s p r : string) :
  trim s = p ++ String " " r -> trim r <> "".
Proof.
  intros Hs Hr.
  set (back2 := fun a b => ws2 b a) in *.
  set (back3 := fun a b c => ws3 c b a) in *.
  set (y := strip ws1 back2 back3 (reverse (trimStart s))).
  assert (Hy : y = (reverse r ++ " ") ++ reverse p).
  { unfold trim, trimEnd in Hs. fold back2 back3 y in Hs.
    apply (f_equal reverse) in Hs.
    rewrite reverse_reverse, reverse_append in Hs. exact Hs. }
  assert (Hfix : strip ws1 back2 back3 y = y) by apply strip_idempotent.
  assert (Hshrink : String.length (strip ws1 back2 back3 y) < String.length y);
    [| rewrite Hfix in Hshrink; lia].
  rewrite Hy, append_associative.
  destruct (string_dec r "") as [-> | Hne].
  - cbn [reverse append strip]. change (ws1 " ") with true. cbn iota.
    pose proof (strip_shorter ws1 back2 back3 (reverse p)). simpl. lia.
  - unfold trim, trimEnd in Hr. fold back2 back3 in Hr.
    apply reverse_is_empty in Hr.
    destruct (strip_is_suffix ws1 ws2 ws3 r) as (blanks & Hsplit).
    fold (trimStart r) in Hsplit.
    destruct (string_dec (trimStart r) "") as [Hall | Hsome].
    + apply (strip_blank_tail ws1 ws2 ws3 (String.length r)); auto.
    + rewrite Hsplit, reverse_append, append_associative.
      apply strip_blank_head; [| exact Hr].
      intros Hrev. apply Hsome. now apply reverse_is_empty.
Qed.

(** A white space character of two or three bytes is not taken, read
    backwards, for a shorter one. *)
Lemma ws2_second_byte (a b : ascii) : ws2 a b = true -> ws1 b = false.
Proof.
  unfold ws2, ws1, between. generalize (code a) (code b). intros x y H.
  apply andb_true_iff in H as [_ Hy]. apply N.eqb_eq in Hy. now subst y.
Qed.

Lemma ws3_third_byte (a b c : ascii) :
  ws3 a b c = true -> ws1 c = false /\ ws2 b c = false.
Proof.
  unfold ws3, ws2, ws1, between. generalize (code a) (code b) (code c).
  intros x y z H.
  assert (Hz : (128 <= z)%N /\ y <> 194%N).
  { repeat match type of H with
           | (_ || _)%bool = true => apply orb_true_iff in H as [H | H]
           end;
      repeat match goal with
             | H : (_ && _)%bool = true |- _ => apply andb_true_iff in H as [? ?]
             | H : (_ || _)%bool = true |- _ => apply orb_true_iff in H as [? | ?]
             | H : N.eqb _ _ = true |- _ => apply N.eqb_eq in H
             | H : N.leb _ _ = true |- _ => apply N.leb_le in H
             end; lia. }
  destruct Hz as [Hz Hy]. split.
  - apply orb_false_iff. split.
    + apply andb_false_iff. right. apply N.leb_gt. lia.
    + apply N.eqb_neq. lia.
  - apply andb_false_iff. left. now apply N.eqb_neq.
Qed.

(** White space at the end of a string goes away entirely: if [blanks]
    strips to nothing from the front, then behind any [z], read backwards,
    it is stripped from the front as well. *)
Lemma strip_back_blanks (n : nat) :
  forall blanks z,
    String.length blanks <= n ->
    strip ws1 ws2 ws3 blanks = "" ->
    strip ws1 (fun a b => ws2 b a) (fun a b c => ws3 c b a) (reverse blanks ++ z)
    = strip ws1 (fun a b => ws2 b a) (fun a b c => ws3 c b a) z.
Proof.
  induction n as [| n IH]; intros blanks z Hn Hblank.
  - destruct blanks; [reflexivity | simpl in Hn; lia].
  - destruct blanks as [| a r1]; [reflexivity |].
    cbn [strip] in Hblank. cbn [reverse]. rewrite append_associative.
    cbn [append].
    destruct (ws1 a) eqn:Ha.
    { rewrite IH by (simpl in *; auto; lia). cbn [strip]. now rewrite Ha. }
    destruct r1 as [| b r2]; [discriminate |].
    cbn [reverse]. rewrite append_associative. cbn [append].
    destruct (ws2 a b) eqn:Hab.
    { rewrite IH by (simpl in *; auto; lia). cbn [strip].
      now rewrite (ws2_second_byte _ _ Hab), Hab. }
    destruct r2 as [| c r3]; [discriminate |].
    cbn [reverse]. rewrite append_associative. cbn [append].
    destruct (ws3 a b c) eqn:Habc; [| discriminate].
    rewrite IH by (simpl in *; auto; lia). cbn [strip].
    destruct (ws3_third_byte _ _ _ Habc) as [Hc Hbc].
    now rewrite Hc, Hbc, Habc.
Qed.

Lemma trim_HTTP_then_blanks (blanks : string) :
  trimStart blanks = "" -> trim ("HTTP" ++ blanks) = "HTTP".
Proof.
  intros Hblank. unfold trim.
  change (trimStart ("HTTP" ++ blanks)) with ("HTTP" ++ blanks).
  unfold trimEnd.
  rewrite reverse_append, (strip_back_blanks (String.length blanks)) by auto.
  reflexivity.
Qed.

Lemma trim_URL_then_blanks (blanks : string) :
  trimStart blanks = "" -> trim ("URL" ++ blanks) = "URL".
Proof.
  intros Hblank. unfold trim.
  change (trimStart ("URL" ++ blanks)) with ("URL" ++ blanks).
  unfold trimEnd.
  rewrite reverse_append, (strip_back_blanks (String.length blanks)) by auto.
  reflexivity.
Qed.

(** ** The order of an object's properties *)

Section OwnOrder.

Context {A : Type}.

Implicit Types (fields : list (string * A)) (sorted : list (N * (string * A))).

Lemma insert_by_index_perm n (x : string * A) sorted :
  Permutation (insert_by_index n x sorted) ((n, x) :: sorted).
Proof.
  induction sorted as [| [m y] rest IH]; simpl; [reflexivity |].
  destruct (N.ltb n m); [reflexivity |].
  rewrite IH. apply perm_swap.
Qed.

Lemma insert_by_index_sorted n (x : string * A) sorted :
  Sorted (fun a b => (fst a <= fst b)%N) sorted ->
  Sorted (fun a b => (fst a <= fst b)%N) (insert_by_index n x sorted).
Proof.
  induction 1 as [| [m y] rest Hrest IH Hhd]; simpl.
  - repeat constructor.
  - destruct (N.ltb n m) eqn:Hnm.
    + apply N.ltb_lt in Hnm.
      repeat constructor; simpl; try lia; assumption.
    + apply N.ltb_ge in Hnm.
      constructor; [assumption |].
      destruct rest as [| [m' y'] rest']; simpl in *.
      * constructor; simpl; lia.
      * destruct (N.ltb n m'); constructor; simpl; try lia.
        inversion Hhd; subst; assumption.
Qed.

Lemma indexed_sorted fields :
  Sorted (fun a b => (fst a <= fst b)%N) (indexed fields).
Proof.
  induction fields as [| [k v] rest IH]; simpl; [constructor |].
  destruct (array_index k); [apply insert_by_index_sorted |]; assumption.
Qed.

Lemma indexed_keys fields :
  Forall (fun entry => array_index (fst (snd entry)) = Some (fst entry))
         (indexed fields).
Proof.
  induction fields as [| [k v] rest IH]; simpl; [constructor |].
  destruct (array_index k) as [n |] eqn:Hk; [| assumption].
  eapply Permutation_Forall.
  - symmetry. apply insert_by_index_perm.
  - constructor; assumption.
Qed.

Lemma own_order_perm fields : Permutation (own_order fields) fields.
Proof.
  unfold own_order.
  induction fields as [| [k v] rest IH]; simpl; [reflexivity |].
  destruct (array_index k) as [n |] eqn:Hk; simpl.
  - rewrite insert_by_index_perm. simpl. now constructor.
  - rewrite <- Permutation_middle. now constructor.
Qed.

Lemma own_order_without_indices fields :
  (forall k v, In (k, v) fields -> array_index k = None) ->
  own_order fields = fields.
Proof.
  intros Hnone.
  assert (indexed fields = [] /\ named fields = fields) as [Hi Hn].
  { induction fields as [| [k v] rest IH]; [split; reflexivity |].
    unfold named in *. simpl.
    rewrite (Hnone k v) by (left; reflexivity).
    destruct IH as [Hi Hn].
    - intros k' v' Hin. apply (Hnone k' v'). now right.
    - split; [assumption | now rewrite Hn]. }
  unfold own_order. now rewrite Hi, Hn.
Qed.

End OwnOrder.

(** ** Percent-encoding the pairs of a query *)

Lemma for_each_throws {A B : Type} (f : A -> completion B) (xs : list A) (e : JsError.t) :
  for_each f xs = Throw e -> exists x, In x xs /\ f x = Throw e.
Proof.
  induction xs as [| x rest IH]; cbn [for_each]; [discriminate |].
  destruct (f x) as [y | e'] eqn:Hx; cbn [bind].
  - destruct (for_each f rest) as [ys | e'']; cbn [bind]; [discriminate |].
    intros H. injection H as ->.
    destruct (IH eq_refl) as (x' & Hin & Hx').
    exists x'. split; [now right | assumption].
  - intros H. injection H as ->. exists x. split; [now left | assumption].
Qed.

(** Induction on a value, with the property at hand for the elements of
    an array and the values of an object. *)
Section ValueInduction.

Variable P : json -> Prop.

Hypothesis P_null : P JNull.
Hypothesis P_bool : forall b, P (JBool b).
Hypothesis P_number : forall text, P (JNum text).
Hypothesis P_string : forall s, P (JStr s).
Hypothesis P_array : forall items, Forall P items -> P (JArr items).
Hypothesis P_object :
  forall fields, Forall (fun field => P (snd field)) fields -> P (JObj fields).

Lemma value_induction (v : json) : P v.
Proof.
  revert v.
  exact (fix value_induction (v : json) : P v :=
           match v with
           | JNull => P_null
           | JBool b => P_bool b
           | JNum text => P_number text
           | JStr s => P_string s
           | JArr items =>
               P_array items
                 ((fix each (items : list json) : Forall P items :=
                     match items with
                     | [] => Forall_nil P
                     | x :: rest => Forall_cons x (value_induction x) (each rest)
                     end) items)
           | JObj fields =>
               P_object fields
                 ((fix each (fields : list (string * json))
                     : Forall (fun field => P (snd field)) fields :=
                     match fields with
                     | [] => Forall_nil _
                     | field :: rest =>
                         Forall_cons field (value_induction (snd field)) (each rest)
                     end) fields)
           end).
Qed.

End ValueInduction.

(** The only exception of [String(v)]. *)
Lemma ToString_throws (v : json) :
  forall e : JsError.t, ToString v = Throw e -> e = TypeError_object_to_primitive.
Proof.
  induction v as [| b | text | s | items IH | fields _] using value_induction;
    intros e; cbn [ToString]; try discriminate.
  - destruct b; discriminate.
  - destruct (for_each _ items) as [pieces | e'] eqn:Hitems; cbn [bind]; [discriminate |].
    intros H. injection H as ->.
    apply for_each_throws in Hitems as (x & Hin & Hx).
    rewrite Forall_forall in IH.
    destruct x; try discriminate Hx; now apply (IH _ Hin).
  - destruct (hasOwn fields "toString"); [| discriminate].
    intros H. now injection H as <-.
Qed.

Lemma encodeURIComponent_normal (v : json) (encoded : string) :
  URI.encodeURIComponent v = Normal encoded
  <-> exists text,
      ToString v = Normal text
      /\ isWellFormed text = true
      /\ encoded = encodeURIComponent text.
Proof.
  unfold URI.encodeURIComponent. split.
  - intros H. apply bind_normal in H as (text & Htext & H).
    exists text. destruct (isWellFormed text); [| discriminate].
    apply Normal_inj in H. auto.
  - intros (text & -> & Hwell & ->). cbn [bind]. now rewrite Hwell.
Qed.

Lemma encodeURIComponent_throws (v : json) (e : JsError.t) :
  URI.encodeURIComponent v = Throw e ->
  (ToString v = Throw TypeError_object_to_primitive /\ e = TypeError_object_to_primitive)
  \/ ((exists text, ToString v = Normal text /\ isWellFormed text = false)
      /\ e = URIError_malformed).
Proof.
  unfold URI.encodeURIComponent.
  destruct (ToString v) as [text | e'] eqn:Htext; cbn [bind].
  - destruct (isWellFormed text) eqn:Hwell; [discriminate |].
    intros H. injection H as <-. right. split; [exists text; auto | reflexivity].
  - intros H. injection H as ->. left.
    pose proof (ToString_throws _ _ Htext) as ->. auto.
Qed.

Lemma encode_pair_normal (field : string * json) (pair : string) :
  encode_pair field = Normal pair
  <-> exists entry, text_of field entry /\ pair = key_value entry.
Proof.
  unfold encode_pair, text_of, key_value. split.
  - intros H.
    apply bind_normal in H as (key & Hkey & H).
    apply bind_normal in H as (value & Hvalue & H).
    apply Normal_inj in H.
    apply encodeURIComponent_normal in Hkey as (k & Hk & Hkwell & ->).
    apply encodeURIComponent_normal in Hvalue as (text & Htext & Hwell & ->).
    cbn [ToString] in Hk. apply Normal_inj in Hk. subst k.
    exists (fst field, text). cbn [fst snd]. auto.
  - intros ([k text] & (Hk & Htext & Hkwell & Hwell) & ->). cbn [fst snd] in *. subst k.
    assert (URI.encodeURIComponent (JStr (fst field))
            = Normal (encodeURIComponent (fst field))) as ->.
    { apply encodeURIComponent_normal. exists (fst field). auto. }
    assert (URI.encodeURIComponent (snd field) = Normal (encodeURIComponent text)) as ->.
    { apply encodeURIComponent_normal. exists text. auto. }
    reflexivity.
Qed.

Lemma encode_pair_throws (field : string * json) (e : JsError.t) :
  encode_pair field = Throw e ->
  e = TypeError_object_to_primitive \/ e = URIError_malformed.
Proof.
  unfold encode_pair.
  destruct (URI.encodeURIComponent (JStr (fst field))) as [key | e'] eqn:Hkey; cbn [bind].
  - destruct (URI.encodeURIComponent (snd field)) as [value | e'] eqn:Hvalue; cbn [bind];
      [discriminate |].
    intros H. injection H as ->.
    apply encodeURIComponent_throws in Hvalue as [[_ ->] | [_ ->]]; auto.
  - intros H. injection H as ->.
    apply encodeURIComponent_throws in Hkey as [[_ ->] | [_ ->]]; auto.
Qed.

Lemma for_each_encode_pair (fields : list (string * json)) (pairs : list string) :
  for_each encode_pair fields = Normal pairs
  <-> exists entries, Forall2 text_of fields entries /\ pairs = map key_value entries.
Proof.
  revert pairs. induction fields as [| field rest IH]; intros pairs; cbn [for_each].
  - split.
    + intros H. apply Normal_inj in H. subst pairs. exists []. split; [constructor | reflexivity].
    + intros (entries & Hall & ->). inversion Hall; subst. reflexivity.
  - split.
    + intros H.
      apply bind_normal in H as (pair & Hpair & H).
      apply bind_normal in H as (others & Hothers & H).
      apply Normal_inj in H. subst pairs.
      apply encode_pair_normal in Hpair as (entry & Hentry & ->).
      apply IH in Hothers as (entries & Hall & ->).
      exists (entry :: entries). split; [now constructor | reflexivity].
    + intros (entries & Hall & ->).
      inversion Hall as [| ? entry ? others Hentry Hothers]; subst.
      assert (encode_pair field = Normal (key_value entry)) as ->.
      { apply encode_pair_normal. exists entry. auto. }
      assert (for_each encode_pair rest = Normal (map key_value others)) as ->.
      { apply IH. exists others. auto. }
      reflexivity.
Qed.

Lemma for_each_encode_pair_throws (fields : list (string * json)) (e : JsError.t) :
  for_each encode_pair fields = Throw e ->
  e = TypeError_object_to_primitive \/ e = URIError_malformed.
Proof.
  intros H. apply for_each_throws in H as (field & _ & H).
  now apply encode_pair_throws in H.
Qed.

Lemma own_order_single {A : Type} (key : string) (value : A) :
  own_order [(key, value)] = [(key, value)].
Proof.
  unfold own_order, named. cbn [indexed filter fst].
  destruct (array_index key); reflexivity.
Qed.

Lemma own_order_not_empty {A : Type} (fields : list (string * A)) :
  fields <> [] -> own_order fields <> [].
Proof.
  intros Hne Hnil. apply (f_equal (@List.length _)) in Hnil.
  rewrite (Permutation_length (own_order_perm fields)) in Hnil.
  destruct fields; [congruence | discriminate].
Qed.

Lemma buildFullUrl_of_mapping (baseUrl : string) (fields : list (string * json)) :
  fields <> [] ->
  buildFullUrl baseUrl (JObj fields)
  = (pairs <- for_each encode_pair (own_order fields) ;;
     Normal (baseUrl ++ (if includes baseUrl "?" then "&" else "?") ++ join "&" pairs)).
Proof.
  intros Hne. unfold buildFullUrl, Object_keys. cbn [falsy Object_entries bind].
  rewrite length_map.
  destruct (own_order fields) eqn:Horder; [now apply own_order_not_empty in Horder |].
  reflexivity.
Qed.

Lemma buildFullUrl_of_texts (baseUrl : string) (fields : list (string * json))
      (fullUrl : string) :
  fields <> [] ->
  buildFullUrl baseUrl (JObj fields) = Normal fullUrl
  <-> exists entries,
      Forall2 text_of (own_order fields) entries
      /\ fullUrl = baseUrl ++ (if includes baseUrl "?" then "&" else "?")
                     ++ join "&" (map key_value entries).
Proof.
  intros Hne. rewrite buildFullUrl_of_mapping by assumption. split.
  - intros H. apply bind_normal in H as (pairs & Hpairs & H).
    apply Normal_inj in H.
    apply for_each_encode_pair in Hpairs as (entries & Hall & ->).
    exists entries. auto.
  - intros (entries & Hall & ->).
    assert (for_each encode_pair (own_order fields) = Normal (map key_value entries)) as ->.
    { apply for_each_encode_pair. exists entries. auto. }
    reflexivity.
Qed.

Lemma buildFullUrl_throws (baseUrl : string) (queryParams : json) (error : JsError.t) :
  buildFullUrl baseUrl queryParams = Throw error ->
  error = TypeError_object_to_primitive \/ error = URIError_malformed.
Proof.
  unfold buildFullUrl, Object_keys. intros H.
  destruct (falsy queryParams) eqn:Hfalsy; [discriminate |].
  destruct (Object_entries queryParams) as [entries | e] eqn:Hentries.
  - cbn [bind] in H. destruct (Nat.eqb _ 0); [discriminate |].
    destruct (for_each encode_pair entries) eqn:Hpairs; [discriminate |].
    cbn [bind] in H. injection H as <-.
    now apply (for_each_encode_pair_throws entries).
  - destruct queryParams; discriminate.
Qed.

(** ** The head segments leave the optional sections alone *)

Section ParserFacts.

Variable JSON_parse : string -> option json.

Lemma parse_part_head_keeps_sections i segment result result' :
  i < 2 ->
  parse_part JSON_parse i segment result = Normal result' ->
  Draft.headers result' = Draft.headers result
  /\ Draft.query result' = Draft.query result
  /\ Draft.body result' = Draft.body result.
Proof.
  intros Hi H.
  destruct i as [| [| i]]; [| | lia];
    unfold parse_part in H; simpl in H; split_ifs; invert_normal; simpl; auto.
Qed.

Lemma finish_keeps_sections result d :
  finish result = Normal d ->
  Descriptor.headers d = Draft.headers result
  /\ Descriptor.query d = Draft.query result
  /\ Descriptor.body d = Draft.body result.
Proof.
  unfold finish; intros H; split_ifs; invert_normal; simpl; auto.
Qed.

End ParserFacts.

(** ** The loop over the segments *)

Lemma split_space_head (s : string) : hd "" (split s " ") = first_word s.
Proof.
  unfold split.
  induction s as [| c rest IH]; [reflexivity |].
  cbn [split_from first_word String.prefix String.length Nat.sub].
  destruct (ascii_dec " " c) as [Heq | Hne].
  - subst c. simpl. destruct rest; reflexivity.
  - assert (Ascii.eqb c " " = false) as ->
        by (apply Ascii.eqb_neq; congruence).
    destruct (split_from " " 0 rest) as [| piece pieces] eqn:Hrest; simpl in *;
      rewrite <- ?IH; reflexivity.
Qed.

Section Loop.

Variable JSON_parse : string -> option json.

Lemma parse_parts_app (front back : list string) :
  forall i result,
    parse_parts JSON_parse i (front ++ back) result
    = (result' <- parse_parts JSON_parse i front result ;;
       parse_parts JSON_parse (i + List.length front) back result').
Proof.
  induction front as [| segment front IH]; intros i result; simpl.
  - now rewrite Nat.add_0_r.
  - destruct (parse_part JSON_parse i segment result) as [r | e]; simpl; [| reflexivity].
    rewrite IH. now rewrite Nat.add_succ_r.
Qed.

Lemma parse_part_unknown i segment result :
  2 <= i ->
  startsWith (trim segment) "HEADERS " = false ->
  startsWith (trim segment) "QUERY " = false ->
  startsWith (trim segment) "BODY " = false ->
  parse_part JSON_parse i segment result
  = Throw (Error ("Unknown keyword: " ++ first_word (trim segment))).
Proof.
  intros Hi Hh Hq Hb.
  destruct i as [| [| i]]; try lia.
  unfold parse_part. cbn [Nat.eqb].
  now rewrite Hh, Hq, Hb, split_space_head.
Qed.

End Loop.

(** ** The method of an accepted reqline *)

Section Method.

Variable JSON_parse : string -> option json.

Lemma parse_part_first_sets_method segment result result' :
  parse_part JSON_parse 0 segment result = Normal result' ->
  get_or_post (Draft.method result').
Proof.
  unfold parse_part, get_or_post. cbn [Nat.eqb].
  intros H.
  destruct (negb (startsWith (trim segment) "HTTP ")); [discriminate |].
  destruct (String.eqb (trim (substring 5 (trim segment))) ""); [discriminate |].
  destruct (String.eqb_spec (trim (substring 5 (trim segment))) "GET") as [Hget | _].
  - cbn [negb andb] in H. apply Normal_inj in H. subst result'.
    cbn [Draft.method]. rewrite Hget. now left.
  - destruct (String.eqb_spec (trim (substring 5 (trim segment))) "POST") as [Hpost | _].
    + cbn [negb andb] in H. apply Normal_inj in H. subst result'.
      cbn [Draft.method]. rewrite Hpost. now right.
    + discriminate.
Qed.

Lemma parse_part_later_keeps_method i segment result result' :
  1 <= i ->
  parse_part JSON_parse i segment result = Normal result' ->
  Draft.method result' = Draft.method result.
Proof.
  intros Hi H. destruct i as [| i]; [lia |].
  unfold parse_part, parse_section in H. cbn [Nat.eqb] in H.
  repeat match goal with
         | H : context [JSON_parse ?t] |- _ => destruct (JSON_parse t)
         | H : context [if ?b then _ else _] |- _ => destruct b
         end; simpl in H; invert_normal; reflexivity.
Qed.

Lemma parse_parts_later_keep_method parts :
  forall i result result',
    1 <= i ->
    parse_parts JSON_parse i parts result = Normal result' ->
    Draft.method result' = Draft.method result.
Proof.
  induction parts as [| segment rest IH]; intros i result result' Hi H; simpl in H.
  - now invert_normal.
  - apply bind_normal in H as (r & Hpart & Hrest).
    apply IH in Hrest; [| lia].
    apply parse_part_later_keeps_method in Hpart; [| assumption].
    congruence.
Qed.

Lemma parseReqline_method reqline d :
  parseReqline JSON_parse reqline = Normal d ->
  Descriptor.method d = "GET" \/ Descriptor.method d = "POST".
Proof.
  unfold parseReqline. intros H.
  destruct (Nat.ltb (List.length (split reqline " | ")) 2) eqn:Hlen; [discriminate |].
  apply bind_normal in H as (result & Hloop & Hfin).
  destruct (split reqline " | ") as [| segment rest]; [discriminate Hlen |].
  simpl in Hloop.
  apply bind_normal in Hloop as (r & Hfirst & Hrest).
  apply parse_part_first_sets_method in Hfirst.
  apply parse_parts_later_keep_method in Hrest; [| lia].
  unfold finish in Hfin. split_ifs; invert_normal. simpl.
  rewrite Hrest. destruct Hfirst as [-> | ->]; auto.
Qed.

End Method.

(** ** The URL of an accepted reqline *)

Section Url.

Variable JSON_parse : string -> option json.

Lemma parse_part_second_sets_url segment result result' :
  parse_part JSON_parse 1 segment result = Normal result' ->
  http_or_https (Draft.url result').
Proof.
  unfold parse_part, http_or_https. cbn [Nat.eqb].
  intros H.
  destruct (negb (startsWith (trim segment) "URL ")); [discriminate |].
  destruct (String.eqb _ ""); [discriminate |].
  destruct (startsWith (trim (substring 4 (trim segment))) "http://") eqn:Hhttp;
    [| destruct (startsWith (trim (substring 4 (trim segment))) "https://") eqn:Hhttps];
    cbn [negb andb] in H; try discriminate;
    destruct (Nat.ltb _ 3); try discriminate;
    apply Normal_inj in H; subst result'; cbn [Draft.url];
    eexists; split; try reflexivity; auto.
Qed.

Lemma parse_part_other_keeps_url i segment result result' :
  i <> 1 ->
  parse_part JSON_parse i segment result = Normal result' ->
  Draft.url result' = Draft.url result.
Proof.
  intros Hi H. destruct i as [| [| i]]; [| congruence |];
    unfold parse_part, parse_section in H; cbn [Nat.eqb] in H;
    repeat match goal with
           | H : context [JSON_parse ?t] |- _ => destruct (JSON_parse t)
           | H : context [if ?b then _ else _] |- _ => destruct b
           end; cbn [bind] in H; try discriminate;
    apply Normal_inj in H; subst result'; reflexivity.
Qed.

Lemma parse_parts_later_keep_url parts :
  forall i result result',
    2 <= i ->
    parse_parts JSON_parse i parts result = Normal result' ->
    Draft.url result' = Draft.url result.
Proof.
  induction parts as [| segment rest IH]; intros i result result' Hi H; simpl in H.
  - now invert_normal.
  - apply bind_normal in H as (r & Hpart & Hrest).
    apply IH in Hrest; [| lia].
    apply parse_part_other_keeps_url in Hpart; [| lia].
    congruence.
Qed.

Lemma parseReqline_url reqline d :
  parseReqline JSON_parse reqline = Normal d ->
  startsWith (Descriptor.url d) "http://" = true
  \/ startsWith (Descriptor.url d) "https://" = true.
Proof.
  unfold parseReqline. intros H.
  destruct (Nat.ltb_spec (List.length (split reqline " | ")) 2) as [| Hlen];
    [discriminate |].
  apply bind_normal in H as (result & Hloop & Hfin).
  destruct (split reqline " | ") as [| s0 [| s1 rest]]; simpl in Hlen; try lia.
  simpl in Hloop.
  apply bind_normal in Hloop as (r0 & _ & Hloop).
  apply bind_normal in Hloop as (r1 & Hsecond & Hrest).
  apply parse_part_second_sets_url in Hsecond as (text & Hurl & Hscheme).
  apply parse_parts_later_keep_url in Hrest; [| lia].
  unfold finish in Hfin.
  destruct (missing (Draft.method result)); [discriminate |].
  destruct (missing (Draft.url result)); [discriminate |].
  apply Normal_inj in Hfin. subst d. cbn [Descriptor.url].
  now rewrite Hrest, Hurl.
Qed.

End Url.

(** ** Branches of the parser that no input reaches *)

Lemma split_from_length (sep : string) (s : string) :
  forall skip, 1 <= List.length (split_from sep skip s).
Proof.
  induction s as [| c s IH]; intros skip; cbn [split_from]; [simpl; lia |].
  destruct skip; [| apply IH].
  destruct (String.prefix sep (String c s)); [simpl; lia |].
  specialize (IH 0).
  destruct (split_from sep 0 s); simpl in *; lia.
Qed.

(** A value that starts with [http://] or [https://] has three parts
    between slashes at least. *)
Lemma url_has_three_parts (urlPart : string) :
  startsWith urlPart "http://" = true \/ startsWith urlPart "https://" = true ->
  3 <= List.length (split urlPart "/").
Proof.
  intros [H | H]; apply startsWith_cut in H; rewrite H; unfold split;
    match goal with
    | |- context [substring ?n urlPart] => generalize (substring n urlPart)
    end; intros rest;
    pose proof (split_from_length "/" rest 0) as Hrest;
    simpl;
    replace (String.prefix "" rest) with true by (destruct rest; reflexivity);
    simpl; lia.
Qed.

Lemma fails_as_parser_bind {A B : Type} (c : completion A) (k : A -> completion B) :
  fails_as_parser c -> (forall a, fails_as_parser (k a)) -> fails_as_parser (bind c k).
Proof. destruct c; simpl; auto. Qed.

Ltac listed := split; [reflexivity | left; simpl; tauto].

Section DeadBranches.

Variable JSON_parse : string -> option json.

Lemma parse_section_fails_as_parser name text :
  name = "HEADERS" \/ name = "QUERY" \/ name = "BODY" ->
  fails_as_parser (parse_section JSON_parse name text).
Proof.
  unfold parse_section.
  destruct (JSON_parse text); [intros; exact I |].
  intros [-> | [-> | ->]]; listed.
Qed.

Lemma parse_part_fails_as_parser i segment result :
  fails_as_parser (parse_part JSON_parse i segment result).
Proof.
  unfold parse_part.
  set (part := trim segment).
  destruct (Nat.eqb i 0).
  { destruct (startsWith part "HTTP ") eqn:Hkeyword; cbn [negb]; [| listed].
    destruct (String.eqb_spec (trim (substring 5 part)) "") as [Hempty | _].
    - exfalso. apply startsWith_cut in Hkeyword.
      apply (trim_keeps_text_after_space segment "HTTP" (substring 5 part)); assumption.
    - destruct (_ && _)%bool; [listed | exact I]. }
  destruct (Nat.eqb i 1).
  { destruct (startsWith part "URL ") eqn:Hkeyword; cbn [negb]; [| listed].
    destruct (String.eqb_spec (trim (substring 4 part)) "") as [Hempty | _].
    - exfalso. apply startsWith_cut in Hkeyword.
      apply (trim_keeps_text_after_space segment "URL" (substring 4 part)); assumption.
    - destruct (startsWith (trim (substring 4 part)) "http://") eqn:Hhttp;
        [| destruct (startsWith (trim (substring 4 part)) "https://") eqn:Hhttps];
        cbn [negb andb]; try listed.
      + destruct (Nat.ltb_spec (List.length (split (trim (substring 4 part)) "/")) 3)
          as [Hfew | _]; [| exact I].
        pose proof (url_has_three_parts _ (or_introl Hhttp)). lia.
      + destruct (Nat.ltb_spec (List.length (split (trim (substring 4 part)) "/")) 3)
          as [Hfew | _]; [| exact I].
        pose proof (url_has_three_parts _ (or_intror Hhttps)). lia. }
  destruct (startsWith part "HEADERS ").
  { destruct (String.eqb _ _); [exact I |].
    apply fails_as_parser_bind; [apply parse_section_fails_as_parser; auto | intros; exact I]. }
  destruct (startsWith part "QUERY ").
  { destruct (String.eqb _ _); [exact I |].
    apply fails_as_parser_bind; [apply parse_section_fails_as_parser; auto | intros; exact I]. }
  destruct (startsWith part "BODY ").
  { destruct (String.eqb _ _); [exact I |].
    apply fails_as_parser_bind; [apply parse_section_fails_as_parser; auto | intros; exact I]. }
  split; [reflexivity | right; eexists; reflexivity].
Qed.

Lemma parse_parts_fail_as_parser parts :
  forall i result, fails_as_parser (parse_parts JSON_parse i parts result).
Proof.
  induction parts as [| segment rest IH]; intros i result; simpl; [exact I |].
  apply fails_as_parser_bind; [apply parse_part_fails_as_parser | intros; apply IH].
Qed.

Lemma parseReqline_fails_as_parser reqline :
  fails_as_parser (parseReqline JSON_parse reqline).
Proof.
  unfold parseReqline, finish.
  destruct (Nat.ltb _ _); [listed |].
  apply fails_as_parser_bind; [apply parse_parts_fail_as_parser | intros result].
  destruct (missing _); [listed |].
  destruct (missing _); [listed | exact I].
Qed.

End DeadBranches.

(** ** The handler, case by case *)

Lemma populated_object (fields : list (string * json)) :
  populated (JObj fields) <-> fields <> [].
Proof.
  unfold populated, Object_keys. cbn [Object_entries bind].
  split.
  - intros (keys & Hkeys & Hne) ->. now invert_normal.
  - intros Hne. eexists; split; [reflexivity |].
    intros Hnil. apply Hne.
    apply (f_equal (@List.length _)) in Hnil.
    rewrite !length_map, (Permutation_length (own_order_perm fields)) in Hnil.
    now destruct fields.
Qed.

Section HandlerFacts.

Variable JSON_parse : string -> option json.

Lemma prepare_normal reqline parsed fullUrl requestConfig :
  prepare JSON_parse reqline = Normal (parsed, fullUrl, requestConfig) ->
  exists text,
    reqline = JStr text
    /\ parseReqline JSON_parse text = Normal parsed
    /\ buildFullUrl (Descriptor.url parsed) (Descriptor.query parsed) = Normal fullUrl
    /\ RequestConfig.method requestConfig = toLowerCase (Descriptor.method parsed)
    /\ RequestConfig.url requestConfig = fullUrl
    /\ RequestConfig.headers requestConfig = Descriptor.headers parsed
    /\ RequestConfig.timeout requestConfig = 10000%Z
    /\ (RequestConfig.data requestConfig = Some (Descriptor.body parsed)
        \/ RequestConfig.data requestConfig = None)
    /\ (RequestConfig.data requestConfig <> None
        <-> Descriptor.method parsed = "POST" /\ populated (Descriptor.body parsed)).
Proof.
  unfold prepare. intros H.
  apply bind_normal in H as (text & Htext & H).
  apply bind_normal in H as (d & Hparse & H).
  apply bind_normal in H as (full & Hurl & H).
  destruct reqline; simpl in Htext; invert_normal.
  exists text. split; [reflexivity |]. rewrite Hparse.
  destruct (String.eqb_spec (Descriptor.method d) "POST") as [Hpost | Hother].
  - apply bind_normal in H as (keys & Hkeys & H).
    destruct (Nat.ltb 0 (List.length keys)) eqn:Hlen; invert_normal; simpl;
      repeat split; auto; try discriminate; try tauto.
    + exists keys. split; [assumption |]. intros ->. discriminate Hlen.
    + intros (_ & keys' & Hkeys' & Hne). exfalso.
      rewrite Hkeys in Hkeys'. invert_normal.
      destruct keys'; [now apply Hne | discriminate Hlen].
  - invert_normal; simpl; repeat split; auto; tauto.
Qed.

Lemma prepare_throws reqline error :
  prepare JSON_parse reqline = Throw error
  <-> thrown_before_request JSON_parse reqline error.
Proof.
  unfold prepare, thrown_before_request.
  destruct reqline as [| b | n | text | items | fields]; cbn [as_string bind].
  1-3, 5-6:
    (split;
     [ intros H; injection H as <-; left; split; [intros t; discriminate | reflexivity]
     | intros [[_ ->] | (t & Ht & _)]; [reflexivity | discriminate Ht] ]).
  split.
  - intros H. right. exists text. split; [reflexivity |].
    destruct (parseReqline JSON_parse text) as [parsed | e]; cbn [bind] in H;
      [| left; now injection H as ->].
    right. exists parsed. split; [reflexivity |].
    destruct (buildFullUrl (Descriptor.url parsed) (Descriptor.query parsed))
      as [fullUrl | e]; cbn [bind] in H; [| left; now injection H as ->].
    right. exists fullUrl. split; [reflexivity |].
    destruct (String.eqb_spec (Descriptor.method parsed) "POST") as [Hpost | _];
      [| discriminate H].
    split; [exact Hpost |].
    destruct (Object_keys (Descriptor.body parsed)) as [keys | e]; cbn [bind] in H;
      [| now injection H as ->].
    destruct (Nat.ltb 0 (List.length keys)); discriminate H.
  - intros [[Hno _] | (t & Ht & H)]; [now destruct (Hno text) |].
    injection Ht as <-.
    destruct H as [H | (parsed & Hparse & H)]; [now rewrite H |].
    rewrite Hparse. cbn [bind].
    destruct H as [H | (fullUrl & Hurl & Hpost & Hkeys)]; [now rewrite H |].
    rewrite Hurl. cbn [bind]. rewrite Hpost, String.eqb_refl, Hkeys. reflexivity.
Qed.

Lemma requests_cases (w : world) (rc_body : RequestBody.t) :
  requests JSON_parse w rc_body
  = match RequestBody.reqline rc_body with
    | None => []
    | Some reqline =>
        if falsy reqline then []
        else match prepare JSON_parse reqline with
             | Throw _ => []
             | Normal (_, _, requestConfig) => [requestConfig]
             end
    end.
Proof.
  unfold requests, handler.
  destruct (RequestBody.reqline rc_body) as [reqline |]; [| reflexivity].
  destruct (falsy reqline); [reflexivity |].
  destruct (prepare JSON_parse reqline) as [[[parsed fullUrl] cfg] | e]; [| reflexivity].
  simpl. destruct (axios w cfg); reflexivity.
Qed.

Lemma respond_cases (w : world) (rc_body : RequestBody.t) :
  respond JSON_parse w rc_body
  = match RequestBody.reqline rc_body with
    | None => bad_request "Missing reqline parameter"
    | Some reqline =>
        if falsy reqline then bad_request "Missing reqline parameter"
        else match prepare JSON_parse reqline with
             | Throw error => on_error error
             | Normal (parsed, fullUrl, requestConfig) =>
                 match axios w requestConfig with
                 | Rejected error => on_error error
                 | Fulfilled response =>
                     {| Reply.status := 200;
                        Reply.data :=
                          Envelope
                            {| RequestEcho.query := Descriptor.query parsed;
                               RequestEcho.body := Descriptor.body parsed;
                               RequestEcho.headers := Descriptor.headers parsed;
                               RequestEcho.full_url := fullUrl |}
                            {| ResponseReport.http_status := Response.status response;
                               ResponseReport.duration := (clock w 1 - clock w 0)%Z;
                               ResponseReport.request_start_timestamp := clock w 0;
                               ResponseReport.request_stop_timestamp := clock w 1;
                               ResponseReport.response_data := Response.data response |} |}
                 end
             end
    end.
Proof.
  unfold respond, handler.
  destruct (RequestBody.reqline rc_body) as [reqline |]; [| reflexivity].
  destruct (falsy reqline); [reflexivity |].
  destruct (prepare JSON_parse reqline) as [[[parsed fullUrl] cfg] | e]; [| reflexivity].
  simpl. destruct (axios w cfg); reflexivity.
Qed.

End HandlerFacts.

(** ** The replies of the endpoint *)

Lemma on_error_cases (error : JsError.t) :
  on_error error
  = {| Reply.status := 400;
       Reply.data :=
         Failure true
           (if has_marker (JsError.message error) then JsError.message error
            else match JsError.response error with
                 | Some response =>
                     "HTTP request failed: " ++ of_Z (Response.status response)
                       ++ " " ++ Response.statusText response
                 | None => "Network error: " ++ JsError.message error
                 end) |}.
Proof.
  unfold on_error, has_marker. cbn [existsb]. rewrite orb_false_r, !orb_assoc.
  destruct (_ || _)%bool; [reflexivity |].
  destruct (JsError.response error); reflexivity.
Qed.

(** What is thrown before the HTTP client is called carries no
    [response]. *)

Lemma plain_bind {A B : Type} (c : completion A) (k : A -> completion B) :
  plain c -> (forall a, plain (k a)) -> plain (bind c k).
Proof.
  destruct c; simpl; auto.
Qed.

Ltac plain_steps :=
  repeat first
    [ apply plain_bind; [| intros ?]
    | match goal with
      | |- plain (if ?b then _ else _) => destruct b
      | |- plain (match ?x with _ => _ end) => destruct x
      end
    | exact I
    | reflexivity ].

Lemma for_each_plain {A B : Type} (f : A -> completion B) (xs : list A) :
  (forall x, plain (f x)) -> plain (for_each f xs).
Proof.
  intros Hf. induction xs as [| x rest IH]; simpl; [exact I |].
  apply plain_bind; [apply Hf | intros y].
  apply plain_bind; [exact IH | intros ys; exact I].
Qed.

Lemma Object_entries_plain v : plain (Object_entries v).
Proof. destruct v; simpl; auto. Qed.

Lemma Object_keys_plain v : plain (Object_keys v).
Proof.
  unfold Object_keys. apply plain_bind; [apply Object_entries_plain | intros; exact I].
Qed.

Lemma buildFullUrl_plain baseUrl queryParams : plain (buildFullUrl baseUrl queryParams).
Proof.
  unfold buildFullUrl.
  destruct (falsy queryParams); [exact I |].
  apply plain_bind; [apply Object_keys_plain | intros keys].
  destruct (Nat.eqb _ _); [exact I |].
  apply plain_bind; [apply Object_entries_plain | intros entries].
  apply plain_bind; [| intros; exact I].
  apply for_each_plain. intros field.
  destruct (encode_pair field) as [pair | e] eqn:Hpair; [exact I |].
  now apply encode_pair_throws in Hpair as [-> | ->].
Qed.

Lemma parse_part_plain JSON_parse i segment result :
  plain (parse_part JSON_parse i segment result).
Proof.
  unfold parse_part, parse_section. plain_steps.
Qed.

Lemma parse_parts_plain JSON_parse parts :
  forall i result, plain (parse_parts JSON_parse i parts result).
Proof.
  induction parts as [| segment rest IH]; intros i result; simpl; [exact I |].
  apply plain_bind; [apply parse_part_plain | intros; apply IH].
Qed.

Lemma parseReqline_plain JSON_parse reqline : plain (parseReqline JSON_parse reqline).
Proof.
  unfold parseReqline, finish.
  destruct (Nat.ltb _ _); [reflexivity |].
  apply plain_bind; [apply parse_parts_plain | intros result].
  plain_steps.
Qed.

Lemma prepare_plain JSON_parse reqline : plain (prepare JSON_parse reqline).
Proof.
  unfold prepare.
  apply plain_bind; [destruct reqline; simpl; auto | intros text].
  apply plain_bind; [apply parseReqline_plain | intros parsed].
  apply plain_bind; [apply buildFullUrl_plain | intros fullUrl].
  destruct (String.eqb _ _); [| exact I].
  apply plain_bind; [apply Object_keys_plain | intros keys].
  destruct (Nat.ltb _ _); exact I.
Qed.

Lemma has_marker_of_parser_message (message : string) :
  parser_message message ->
  has_marker message
  = negb (String.eqb message "Invalid URL format. Must start with http:// or https://").
Proof.
  intros [Hin | (word & ->)].
  - simpl in Hin.
    repeat (destruct Hin as [<- | Hin]; [vm_compute; reflexivity |]).
    contradiction.
  - unfold has_marker. cbn [existsb].
    assert (includes ("Unknown keyword: " ++ word) "Unknown keyword" = true) as ->
        by reflexivity.
    now rewrite !orb_true_r.
Qed.

(** * The claims of the specification *)

(** C1 (the code departs from it).  The reqline
    [HTTP GET | URL ftp://x.com/] makes the parser fail with "Invalid URL
    format. Must start with http:// or https://"; the handler answers 400,
    but with the message prefixed by "Network error: " instead of the
    parser's own message: the [catch] block lists no marker that this
    message contains.  Other parser failures, such as that of
    [GET | URL https://x.com/], do come back with the parser's message. *)
Theorem C1_url_scheme_error_is_rewritten (JSON_parse : string -> option json) (w : world) :
  parseReqline JSON_parse "HTTP GET | URL ftp://x.com/"
  = Throw (Error "Invalid URL format. Must start with http:// or https://")
  /\ has_marker "Invalid URL format. Must start with http:// or https://" = false
  /\ respond JSON_parse w (with_reqline "HTTP GET | URL ftp://x.com/")
     = {| Reply.status := 400;
          Reply.data :=
            Failure true
              "Network error: Invalid URL format. Must start with http:// or https://" |}
  /\ parseReqline JSON_parse "GET | URL https://x.com/"
     = Throw (Error "Missing required HTTP keyword")
  /\ respond JSON_parse w (with_reqline "GET | URL https://x.com/")
     = {| Reply.status := 400;
          Reply.data := Failure true "Missing required HTTP keyword" |}.
Proof.
  repeat split; vm_compute; reflexivity.
Qed.

(** C2, as the specification words it, fails: a failure that is not a
    rejection carrying a response need not be reported as a network error.
    The parser refuses [HTTP PUT | URL https://x.com/]; the handler answers
    400 with the parser's message, which does not start with "Network
    error: ", and no request is made.  Likewise a rejection by the HTTP
    client without a response, whose message happens to contain "Unknown
    keyword", comes back with its message as it is. *)
Lemma C2_parser_failure_keeps_its_message :
  (forall JSON_parse w,
      respond JSON_parse w (with_reqline "HTTP PUT | URL https://x.com/")
      = {| Reply.status := 400;
           Reply.data :=
             Failure true "Invalid HTTP method. Only GET and POST are supported" |}
      /\ requests JSON_parse w (with_reqline "HTTP PUT | URL https://x.com/") = [])
  /\ (forall message,
         "Invalid HTTP method. Only GET and POST are supported"
         <> "Network error: " ++ message)
  /\ (forall JSON_parse,
         respond JSON_parse refusing_world (with_reqline "HTTP GET | URL https://x.com/")
         = {| Reply.status := 400; Reply.data := Failure true refusing_message |}
         /\ List.length
              (requests JSON_parse refusing_world
                        (with_reqline "HTTP GET | URL https://x.com/")) = 1)
  /\ (forall message, refusing_message <> "Network error: " ++ message).
Proof.
  repeat split; try (vm_compute; reflexivity); intros message; discriminate.
Qed.

(** C2, amended.  Every reply of the handler has status 200 or 400, and
    it is 200 exactly when the HTTP client fulfilled the request; the
    status the upstream server reported is only echoed as [http_status]
    inside the envelope.  A failure is answered with status 400 and
    [{error: true, message}], where the message is
    - "Missing reqline parameter" when [reqline] is absent or falsy;
    - the error's own message when it contains one of "Invalid reqline
      format", "Missing required", "Invalid HTTP method", "Invalid JSON
      format", "Unknown keyword";
    - otherwise "HTTP request failed: <status> <statusText>" for a
      rejection by the HTTP client that carries a response;
    - otherwise "Network error: <message>".
    The error is the one the HTTP client rejected the request with, or,
    when no request was sent, the one that [reqline.split], [parseReqline],
    [buildFullUrl] or [Object.keys(parsed.body)] threw: no request is sent
    without a [reqline] or after such an error, and in no other case. *)
Theorem C2_replies
        (JSON_parse : string -> option json) (w : world) (rc_body : RequestBody.t) :
  let reply := respond JSON_parse w rc_body in
  let sent := requests JSON_parse w rc_body in
  (Reply.status reply = 200%Z \/ Reply.status reply = 400%Z)
  /\ (Reply.status reply = 200%Z
      <-> exists requestConfig response,
          sent = [requestConfig] /\ axios w requestConfig = Fulfilled response)
  /\ (forall requestConfig response,
         In requestConfig sent ->
         axios w requestConfig = Fulfilled response ->
         exists request report,
           reply = {| Reply.status := 200; Reply.data := Envelope request report |}
           /\ ResponseReport.http_status report = Response.status response)
  /\ (forall requestConfig error,
         In requestConfig sent ->
         axios w requestConfig = Rejected error ->
         has_marker (JsError.message error) = true ->
         reply = {| Reply.status := 400;
                    Reply.data := Failure true (JsError.message error) |})
  /\ (forall requestConfig error response,
         In requestConfig sent ->
         axios w requestConfig = Rejected error ->
         has_marker (JsError.message error) = false ->
         JsError.response error = Some response ->
         reply = {| Reply.status := 400;
                    Reply.data :=
                      Failure true
                        ("HTTP request failed: " ++ of_Z (Response.status response)
                           ++ " " ++ Response.statusText response) |})
  /\ (forall requestConfig error,
         In requestConfig sent ->
         axios w requestConfig = Rejected error ->
         has_marker (JsError.message error) = false ->
         JsError.response error = None ->
         reply = {| Reply.status := 400;
                    Reply.data :=
                      Failure true ("Network error: " ++ JsError.message error) |})
  /\ (forall v error,
         RequestBody.reqline rc_body = Some v ->
         falsy v = false ->
         thrown_before_request JSON_parse v error ->
         sent = []
         /\ JsError.response error = None
         /\ reply = {| Reply.status := 400;
                       Reply.data :=
                         Failure true
                           (if has_marker (JsError.message error)
                            then JsError.message error
                            else "Network error: " ++ JsError.message error) |})
  /\ (sent = [] ->
      reply = {| Reply.status := 400;
                 Reply.data := Failure true "Missing reqline parameter" |}
      \/ exists v error,
          RequestBody.reqline rc_body = Some v
          /\ falsy v = false
          /\ thrown_before_request JSON_parse v error
          /\ reply = {| Reply.status := 400;
                        Reply.data :=
                          Failure true
                            (if has_marker (JsError.message error)
                             then JsError.message error
                             else "Network error: " ++ JsError.message error) |})
  /\ (RequestBody.reqline rc_body = None
      \/ (exists v, RequestBody.reqline rc_body = Some v /\ falsy v = true) ->
      sent = []
      /\ reply = {| Reply.status := 400;
                    Reply.data := Failure true "Missing reqline parameter" |}).
Proof.
  intros reply sent. subst reply sent.
  rewrite respond_cases, requests_cases.
  destruct (RequestBody.reqline rc_body) as [reqline |].
  2: { conjuncts;
         auto; try (intros; contradiction); try discriminate.
       intros (c & r & Hc & _). discriminate. }
  destruct (falsy reqline) eqn:Hfalsy.
  { conjuncts;
      auto; try (intros; contradiction); try discriminate.
    - intros (c & r & Hc & _). discriminate.
    - intros v error Hv Hv'. injection Hv as <-. congruence. }
  assert (Hpresent : ~ (Some reqline = None
                        \/ exists v, Some reqline = Some v /\ falsy v = true)).
  { intros [Hnone | (v & Hv & Hv')]; [discriminate |].
    injection Hv as <-. congruence. }
  pose proof (prepare_plain JSON_parse reqline) as Hplain.
  pose proof (prepare_throws JSON_parse reqline) as Hthrown.
  destruct (prepare JSON_parse reqline) as [[[parsed fullUrl] cfg] | e].
  - assert (Hsent : forall v error,
               Some reqline = Some v -> thrown_before_request JSON_parse v error -> False).
    { intros v error Hv H. injection Hv as <-. apply Hthrown in H. discriminate H. }
    destruct (axios w cfg) as [response | error] eqn:Haxios.
    + conjuncts; auto.
      * intros _. exists cfg, response. auto.
      * intros c r [<- | []] Hr. rewrite Haxios in Hr. injection Hr as <-.
        eexists _, _. split; reflexivity.
      * intros c e [<- | []] He. rewrite Haxios in He. discriminate.
      * intros c e r [<- | []] He. rewrite Haxios in He. discriminate.
      * intros c e [<- | []] He. rewrite Haxios in He. discriminate.
      * intros v error Hv _ H. destruct (Hsent v error Hv H).
      * discriminate.
      * intros H. now apply Hpresent in H.
    + rewrite on_error_cases.
      conjuncts; auto.
      * discriminate.
      * intros (c & r & Hc & Hr). injection Hc as <-. rewrite Haxios in Hr. discriminate.
      * intros c r [<- | []] Hr. rewrite Haxios in Hr. discriminate.
      * intros c e [<- | []] He Hm. rewrite Haxios in He. injection He as <-.
        now rewrite Hm.
      * intros c e r [<- | []] He Hm Hr. rewrite Haxios in He. injection He as <-.
        now rewrite Hm, Hr.
      * intros c e [<- | []] He Hm Hr. rewrite Haxios in He. injection He as <-.
        now rewrite Hm, Hr.
      * intros v e Hv _ H. destruct (Hsent v e Hv H).
      * discriminate.
      * intros H. now apply Hpresent in H.
  - simpl in Hplain. rewrite on_error_cases, Hplain.
    assert (Hreply : forall error,
               thrown_before_request JSON_parse reqline error -> error = e).
    { intros error H. apply Hthrown in H. now injection H. }
    conjuncts; auto; try (intros; contradiction).
    + discriminate.
    + intros (c & r & Hc & _). discriminate.
    + intros v error Hv _ H. injection Hv as <-. apply Hreply in H. subst error.
      auto.
    + intros _. right. exists reqline, e.
      repeat split; auto. now apply Hthrown.
Qed.

(** C3 (the code departs from it).  The parser accepts [https://], which
    has neither domain nor path, and [http://x.com], which has no path.
    A value that starts with [http://] or [https://] always splits at [/]
    into three parts at least, so the check that is to report a missing
    domain or path never fires. *)
Theorem C3_url_without_domain_or_path_accepted (JSON_parse : string -> option json) :
  parseReqline JSON_parse "HTTP GET | URL https://"
  = Normal {| Descriptor.method := "GET";
              Descriptor.url := "https://";
              Descriptor.headers := JObj [];
              Descriptor.query := JObj [];
              Descriptor.body := JObj [] |}
  /\ split "https://" "/" = ["https:"; ""; ""]
  /\ parseReqline JSON_parse "HTTP GET | URL http://x.com"
     = Normal {| Descriptor.method := "GET";
                 Descriptor.url := "http://x.com";
                 Descriptor.headers := JObj [];
                 Descriptor.query := JObj [];
                 Descriptor.body := JObj [] |}
  /\ split "http://x.com" "/" = ["http:"; ""; "x.com"]
  /\ (forall urlPart,
         startsWith urlPart "http://" = true \/ startsWith urlPart "https://" = true ->
         Nat.ltb (List.length (split urlPart "/")) 3 = false).
Proof.
  do 4 (split; [vm_compute; reflexivity |]).
  intros urlPart Hscheme. apply Nat.ltb_ge. now apply url_has_three_parts.
Qed.

(** C4 (the code departs from it).  A first segment that is [HTTP] followed
    by blanks only is trimmed to [HTTP] before the keyword test, which asks
    for [HTTP ] with its space: the parser fails with "Missing required HTTP
    keyword", not "Missing HTTP method".  Likewise [URL] followed by blanks
    fails with "Missing required URL keyword", not "Missing URL value".
    No reqline at all makes the parser fail with "Missing HTTP method" or
    "Missing URL value". *)
Theorem C4_keyword_then_blanks (JSON_parse : string -> option json) :
  parseReqline JSON_parse "HTTP   | URL https://x.com/y"
  = Throw (Error "Missing required HTTP keyword")
  /\ hd "" (split "HTTP   | URL https://x.com/y" " | ") = "HTTP  "
  /\ parseReqline JSON_parse "HTTP GET | URL   "
     = Throw (Error "Missing required URL keyword")
  /\ nth 1 (split "HTTP GET | URL   " " | ") "" = "URL   "
  /\ (forall reqline error,
         parseReqline JSON_parse reqline = Throw error ->
         JsError.message error <> "Missing HTTP method"
         /\ JsError.message error <> "Missing URL value").
Proof.
  do 4 (split; [vm_compute; reflexivity |]).
  intros reqline error Hfail.
  pose proof (parseReqline_fails_as_parser JSON_parse reqline) as Hparser.
  rewrite Hfail in Hparser. destruct Hparser as [_ Hmsg].
  split; intros Heq; rewrite Heq in Hmsg;
    (destruct Hmsg as [Hin | (word & Hword)];
     [simpl in Hin; intuition discriminate | discriminate Hword]).
Qed.

(** C5.  [parseReqline("HTTP GET | URL https://api.example.com/x")] returns
    the descriptor with method [GET], that URL, and empty [headers],
    [query] and [body]; and every reqline of exactly the two segments HTTP
    and URL that the parser accepts has empty [headers], [query] and
    [body]. *)
Theorem C5_two_segments_default_to_empty (JSON_parse : string -> option json) :
  parseReqline JSON_parse "HTTP GET | URL https://api.example.com/x"
  = Normal {| Descriptor.method := "GET";
              Descriptor.url := "https://api.example.com/x";
              Descriptor.headers := JObj [];
              Descriptor.query := JObj [];
              Descriptor.body := JObj [] |}
  /\ forall reqline d,
      List.length (split reqline " | ") = 2 ->
      parseReqline JSON_parse reqline = Normal d ->
      Descriptor.headers d = JObj []
      /\ Descriptor.query d = JObj []
      /\ Descriptor.body d = JObj [].
Proof.
  split; [vm_compute; reflexivity |].
  intros reqline d Hlen Hparse.
  unfold parseReqline in Hparse.
  destruct (split reqline " | ") as [| s0 [| s1 [| s2 rest]]]; try discriminate Hlen.
  simpl in Hparse.
  apply bind_normal in Hparse as (r2 & Hloop & Hfin).
  apply bind_normal in Hloop as (r1 & H0 & Hloop).
  apply bind_normal in Hloop as (r2' & H1 & Hret).
  invert_normal.
  apply parse_part_head_keeps_sections in H0 as (Hh0 & Hq0 & Hb0); [| lia].
  apply parse_part_head_keeps_sections in H1 as (Hh1 & Hq1 & Hb1); [| lia].
  apply finish_keeps_sections in Hfin as (Hh & Hq & Hb).
  rewrite Hh, Hq, Hb, Hh1, Hq1, Hb1, Hh0, Hq0, Hb0.
  auto.
Qed.

Lemma C5_two_segments_default_to_empty_witness :
  Descriptor.headers
    {| Descriptor.method := "POST"; Descriptor.url := "http://x.com/y";
       Descriptor.headers := JObj []; Descriptor.query := JObj [];
       Descriptor.body := JObj [] |} = JObj []
  /\ Descriptor.query
    {| Descriptor.method := "POST"; Descriptor.url := "http://x.com/y";
       Descriptor.headers := JObj []; Descriptor.query := JObj [];
       Descriptor.body := JObj [] |} = JObj []
  /\ Descriptor.body
    {| Descriptor.method := "POST"; Descriptor.url := "http://x.com/y";
       Descriptor.headers := JObj []; Descriptor.query := JObj [];
       Descriptor.body := JObj [] |} = JObj [].
Proof.
  apply (proj2 (C5_two_segments_default_to_empty sample_JSON_parse)
               "HTTP POST | URL http://x.com/y").
  - reflexivity.
  - vm_compute; reflexivity.
Defined.

(** C6, as the specification words it, fails: of two unrecognised segments
    only the first is reported.  In
    [HTTP GET | URL https://x.com/ | FOO a | BAR b] the segment [BAR b] at
    index 3 starts with none of the three keywords, yet the parser fails
    with "Unknown keyword: FOO". *)
Lemma C6_only_the_first_unknown_keyword_is_reported :
  nth_error (split "HTTP GET | URL https://x.com/ | FOO a | BAR b" " | ") 3
  = Some "BAR b"
  /\ startsWith (trim "BAR b") "HEADERS " = false
  /\ startsWith (trim "BAR b") "QUERY " = false
  /\ startsWith (trim "BAR b") "BODY " = false
  /\ first_word (trim "BAR b") = "BAR"
  /\ (forall JSON_parse,
        parseReqline JSON_parse "HTTP GET | URL https://x.com/ | FOO a | BAR b"
        = Throw (Error "Unknown keyword: FOO"))
  /\ Error "Unknown keyword: FOO" <> Error "Unknown keyword: BAR".
Proof.
  repeat split; try (vm_compute; reflexivity); discriminate.
Qed.

(** C6, amended.  Take a segment at index [i >= 2] whose trimmed text does
    not start with [HEADERS ], [QUERY ] or [BODY ] (with the trailing
    space, case-sensitive).  When the loop has processed every segment
    before it without an error, [parseReqline] fails with "Unknown
    keyword: <w>", where <w> is the first space-delimited word of the
    trimmed segment. *)
Theorem C6_unknown_keyword
        (JSON_parse : string -> option json) (reqline : string)
        (i : nat) (segment : string) (result : Draft.t) :
  nth_error (split reqline " | ") i = Some segment ->
  2 <= i ->
  startsWith (trim segment) "HEADERS " = false ->
  startsWith (trim segment) "QUERY " = false ->
  startsWith (trim segment) "BODY " = false ->
  parse_parts JSON_parse 0 (firstn i (split reqline " | ")) initial = Normal result ->
  parseReqline JSON_parse reqline
  = Throw (Error ("Unknown keyword: " ++ first_word (trim segment))).
Proof.
  intros Hnth Hi Hh Hq Hb Hfront.
  unfold parseReqline.
  destruct (nth_error_split _ _ Hnth) as (front & back & Hparts & Hlen).
  assert (Hfirst : firstn i (split reqline " | ") = front).
  { rewrite Hparts, <- Hlen, firstn_app, Nat.sub_diag, firstn_all. simpl.
    now rewrite app_nil_r. }
  rewrite Hfirst in Hfront.
  assert (Hlong : Nat.ltb (List.length (split reqline " | ")) 2 = false).
  { apply Nat.ltb_ge. rewrite Hparts, length_app. simpl. lia. }
  rewrite Hlong, Hparts, parse_parts_app, Hfront. simpl.
  rewrite Hlen, parse_part_unknown by assumption.
  reflexivity.
Qed.

Lemma C6_unknown_keyword_witness :
  parseReqline sample_JSON_parse "HTTP GET | URL https://x.com/ | QUERY {} | HEADERS"
  = Throw (Error ("Unknown keyword: " ++ first_word (trim "HEADERS"))).
Proof.
  apply (C6_unknown_keyword sample_JSON_parse
           "HTTP GET | URL https://x.com/ | QUERY {} | HEADERS" 3 "HEADERS"
           {| Draft.method := Some "GET"; Draft.url := Some "https://x.com/";
              Draft.headers := JObj []; Draft.query := JObj [];
              Draft.body := JObj [] |});
    solve [ reflexivity | lia | vm_compute; reflexivity ].
Defined.

(** C7, as the specification words it, fails: a key that is an array index
    is enumerated before the keys inserted ahead of it.  For the mapping
    built by inserting [b] and then [1], the query string lists [1]
    first.  Nor does every mapping that is not empty give a URL: a value
    that is an object with a field of its own called [toString] cannot be
    converted to a string, and a lone surrogate cannot be percent-encoded;
    [buildFullUrl] throws for both. *)
Lemma C7_index_keys_are_listed_first :
  buildFullUrl "http://a/b" (JObj [("b", JNum "1"); ("1", JNum "2")])
  = Normal "http://a/b?1=2&b=1"
  /\ Forall2 text_of [("b", JNum "1"); ("1", JNum "2")] [("b", "1"); ("1", "2")]
  /\ "http://a/b" ++ "?" ++ join "&" (map key_value [("b", "1"); ("1", "2")])
     = "http://a/b?b=1&1=2"
  /\ Normal "http://a/b?1=2&b=1" <> Normal (A := string) "http://a/b?b=1&1=2"
  /\ buildFullUrl "http://a/b" (JObj [("a", JObj [("toString", JNum "1")])])
     = Throw (Error "Cannot convert object to primitive value")
  /\ buildFullUrl "http://a/b" (JObj [("q", JStr (surrogate 55296))])
     = Throw (Error "URI malformed").
Proof.
  split; [vm_compute; reflexivity |].
  split; [repeat constructor |].
  split; [vm_compute; reflexivity |].
  split; [discriminate |].
  split; vm_compute; reflexivity.
Qed.

(** C7, amended.  [buildFullUrl] returns the base URL unchanged when the
    query mapping is empty.  Otherwise, when every value of the mapping
    has a text [String(value)] and no key and no such text holds a lone
    surrogate, it returns the base URL followed by [?] (or [&] if the base
    URL already contains [?]) and the [&]-joined [key=value] pairs, key
    and the text of the value each percent-encoded on its own, in the
    order in which the runtime enumerates the mapping: the keys that are
    array indices first, in ascending numeric order, then the other keys
    in insertion order.  It returns a URL in no other case: it throws a
    [TypeError] or a [URIError] instead.  The order of enumeration is a
    rearrangement of the mapping's entries, and it is the insertion order
    whenever no key is an array index. *)
Theorem C7_buildFullUrl (baseUrl : string) (fields : list (string * json)) :
  buildFullUrl baseUrl (JObj []) = Normal baseUrl
  /\ (forall entries,
         fields <> [] ->
         Forall2 text_of (own_order fields) entries ->
         buildFullUrl baseUrl (JObj fields)
         = Normal (baseUrl ++ (if includes baseUrl "?" then "&" else "?")
                     ++ join "&" (map key_value entries)))
  /\ (forall fullUrl,
         fields <> [] ->
         buildFullUrl baseUrl (JObj fields) = Normal fullUrl ->
         exists entries,
           Forall2 text_of (own_order fields) entries
           /\ fullUrl = baseUrl ++ (if includes baseUrl "?" then "&" else "?")
                          ++ join "&" (map key_value entries))
  /\ (forall error,
         buildFullUrl baseUrl (JObj fields) = Throw error ->
         (error = Error "Cannot convert object to primitive value"
          \/ error = Error "URI malformed")
         /\ forall entries, ~ Forall2 text_of (own_order fields) entries)
  /\ own_order fields = (map snd (indexed fields) ++ named fields)%list
  /\ Sorted (fun a b => (fst a <= fst b)%N) (indexed fields)
  /\ Forall (fun entry => array_index (fst (snd entry)) = Some (fst entry))
            (indexed fields)
  /\ named fields
     = filter (fun kv => match array_index (fst kv) with
                         | Some _ => false
                         | None => true
                         end) fields
  /\ Permutation (own_order fields) fields
  /\ ((forall k v, In (k, v) fields -> array_index k = None) ->
      own_order fields = fields).
Proof.
  split; [reflexivity |].
  split.
  { intros entries Hne Hall. apply buildFullUrl_of_texts; [assumption |].
    exists entries. auto. }
  split.
  { intros fullUrl Hne H. now apply buildFullUrl_of_texts in H. }
  split.
  { intros error H. split; [now apply buildFullUrl_throws in H |].
    intros entries Hall.
    destruct fields as [| field rest] eqn:Hfields; [discriminate H |].
    rewrite <- Hfields in *.
    assert (Hne : fields <> []) by (rewrite Hfields; discriminate).
    assert (Hnormal : buildFullUrl baseUrl (JObj fields)
                      = Normal (baseUrl ++ (if includes baseUrl "?" then "&" else "?")
                                  ++ join "&" (map key_value entries))).
    { apply buildFullUrl_of_texts; [assumption |]. exists entries. auto. }
    rewrite Hnormal in H. discriminate H. }
  repeat split; auto using indexed_sorted, indexed_keys,
                  own_order_perm, own_order_without_indices.
Qed.

Lemma C7_buildFullUrl_witness :
  buildFullUrl "https://x.com/y" (JObj [("q", JStr "a b"); ("7", JNum "2")])
  = Normal ("https://x.com/y" ++ (if includes "https://x.com/y" "?" then "&" else "?")
              ++ join "&" (map key_value [("7", "2"); ("q", "a b")])).
Proof.
  apply (proj1 (proj2 (C7_buildFullUrl "https://x.com/y"
                         [("q", JStr "a b"); ("7", JNum "2")]))
               [("7", "2"); ("q", "a b")]).
  - discriminate.
  - repeat constructor.
Defined.

(** C8.  A request configuration that reaches the HTTP client comes from a
    reqline the parser accepted, and carries its method in lower case
    ([get] or [post]), the URL [buildFullUrl] built, the parsed headers as
    they are, and the timeout 10000.  It has a payload, the parsed body,
    if and only if the method is POST and the parsed body has at least one
    key; a GET request has none. *)
Theorem C8_request_configuration
        (JSON_parse : string -> option json) (w : world)
        (rc_body : RequestBody.t) (requestConfig : RequestConfig.t) :
  In requestConfig (requests JSON_parse w rc_body) ->
  exists text parsed fullUrl,
    RequestBody.reqline rc_body = Some (JStr text)
    /\ parseReqline JSON_parse text = Normal parsed
    /\ buildFullUrl (Descriptor.url parsed) (Descriptor.query parsed) = Normal fullUrl
    /\ requests JSON_parse w rc_body = [requestConfig]
    /\ RequestConfig.method requestConfig = toLowerCase (Descriptor.method parsed)
    /\ (Descriptor.method parsed = "GET" /\ RequestConfig.method requestConfig = "get"
        \/ Descriptor.method parsed = "POST" /\ RequestConfig.method requestConfig = "post")
    /\ RequestConfig.url requestConfig = fullUrl
    /\ RequestConfig.headers requestConfig = Descriptor.headers parsed
    /\ RequestConfig.timeout requestConfig = 10000%Z
    /\ (RequestConfig.data requestConfig = Some (Descriptor.body parsed)
        \/ RequestConfig.data requestConfig = None)
    /\ (RequestConfig.data requestConfig <> None
        <-> Descriptor.method parsed = "POST" /\ populated (Descriptor.body parsed))
    /\ (forall fields,
          Descriptor.body parsed = JObj fields ->
          (RequestConfig.data requestConfig <> None
           <-> Descriptor.method parsed = "POST" /\ fields <> []))
    /\ (Descriptor.method parsed = "GET" -> RequestConfig.data requestConfig = None).
Proof.
  rewrite requests_cases.
  destruct (RequestBody.reqline rc_body) as [reqline |]; [| intros []].
  destruct (falsy reqline); [intros [] |].
  destruct (prepare JSON_parse reqline) as [[[parsed fullUrl] cfg] | e] eqn:Hprep;
    [| intros []].
  intros [<- | []].
  apply prepare_normal in Hprep
    as (text & -> & Hparse & Hurl & Hm & Hu & Hh & Ht & Hd & Hiff).
  exists text, parsed, fullUrl.
  pose proof (parseReqline_method _ _ _ Hparse) as Hmethod.
  repeat match goal with |- _ /\ _ => split end; auto.
  - rewrite Hm. destruct Hmethod as [-> | ->]; [left | right]; split; reflexivity.
  - intros fields Hbody. rewrite Hiff, Hbody, populated_object. reflexivity.
  - intros Hget. destruct Hd as [Hd | Hd]; [| assumption].
    assert (RequestConfig.data cfg <> None) as Hsome by (rewrite Hd; discriminate).
    apply Hiff in Hsome as [Hpost _]. rewrite Hget in Hpost. discriminate.
Qed.

Lemma C8_request_configuration_witness :
  let rc_body :=
    with_reqline ("HTTP POST | URL http://x.com/y?v=1 | BODY " ++ text_a1 ++ " | QUERY " ++ text_a1) in
  let requestConfig :=
    {| RequestConfig.method := "post";
       RequestConfig.url := "http://x.com/y?v=1&a=1";
       RequestConfig.headers := JObj [];
       RequestConfig.timeout := 10000;
       RequestConfig.data := Some (JObj [("a", JNum "1")]) |} in
  In requestConfig (requests sample_JSON_parse sample_world rc_body)
  /\ exists text parsed fullUrl,
    RequestBody.reqline rc_body = Some (JStr text)
    /\ parseReqline sample_JSON_parse text = Normal parsed
    /\ buildFullUrl (Descriptor.url parsed) (Descriptor.query parsed) = Normal fullUrl
    /\ requests sample_JSON_parse sample_world rc_body = [requestConfig]
    /\ RequestConfig.method requestConfig = toLowerCase (Descriptor.method parsed)
    /\ (Descriptor.method parsed = "GET" /\ RequestConfig.method requestConfig = "get"
        \/ Descriptor.method parsed = "POST" /\ RequestConfig.method requestConfig = "post")
    /\ RequestConfig.url requestConfig = fullUrl
    /\ RequestConfig.headers requestConfig = Descriptor.headers parsed
    /\ RequestConfig.timeout requestConfig = 10000%Z
    /\ (RequestConfig.data requestConfig = Some (Descriptor.body parsed)
        \/ RequestConfig.data requestConfig = None)
    /\ (RequestConfig.data requestConfig <> None
        <-> Descriptor.method parsed = "POST" /\ populated (Descriptor.body parsed))
    /\ (forall fields,
          Descriptor.body parsed = JObj fields ->
          (RequestConfig.data requestConfig <> None
           <-> Descriptor.method parsed = "POST" /\ fields <> []))
    /\ (Descriptor.method parsed = "GET" -> RequestConfig.data requestConfig = None).
Proof.
  intros rc_body requestConfig.
  assert (Hin : In requestConfig (requests sample_JSON_parse sample_world rc_body))
    by (vm_compute; left; reflexivity).
  split; [exact Hin |].
  exact (C8_request_configuration sample_JSON_parse sample_world rc_body requestConfig Hin).
Defined.

(** C9.  When the request body has no [reqline] field the handler returns
    at once: status 400 with [{error: true, message: "Missing reqline
    parameter"}].  The action is a bare [Return]: it does not depend on the
    JSON decoder the parser would use, and in every world no request
    reaches the HTTP client. *)
Theorem C9_missing_reqline (JSON_parse : string -> option json) (w : world) :
  handler JSON_parse without_reqline
  = Return {| Reply.status := 400;
              Reply.data := Failure true "Missing reqline parameter" |}
  /\ respond JSON_parse w without_reqline
     = {| Reply.status := 400;
          Reply.data := Failure true "Missing reqline parameter" |}
  /\ requests JSON_parse w without_reqline = [].
Proof.
  repeat split.
Qed.

(** C10.  A [reqline] that is present but the empty string is handled like
    an absent one: 400 with "Missing reqline parameter", and not the
    parser's "Invalid reqline format. Expected at least HTTP and URL
    parts.", which the parser would give for the empty string. *)
Theorem C10_empty_reqline (JSON_parse : string -> option json) (w : world) :
  handler JSON_parse (with_reqline "") = handler JSON_parse without_reqline
  /\ respond JSON_parse w (with_reqline "")
     = {| Reply.status := 400;
          Reply.data := Failure true "Missing reqline parameter" |}
  /\ requests JSON_parse w (with_reqline "") = []
  /\ parseReqline JSON_parse ""
     = Throw (Error "Invalid reqline format. Expected at least HTTP and URL parts.")
  /\ Reply.data (respond JSON_parse w (with_reqline ""))
     <> Failure true "Invalid reqline format. Expected at least HTTP and URL parts.".
Proof.
  repeat split.
  discriminate.
Qed.

(** * Further properties *)

(** X1.  An accepted reqline has method [GET] or [POST], and a URL that starts
    with [http://] or [https://] and splits at [/] into three parts or
    more. *)
Theorem accepted_descriptor
        (JSON_parse : string -> option json) (reqline : string) (d : Descriptor.t) :
  parseReqline JSON_parse reqline = Normal d ->
  (Descriptor.method d = "GET" \/ Descriptor.method d = "POST")
  /\ (startsWith (Descriptor.url d) "http://" = true
      \/ startsWith (Descriptor.url d) "https://" = true)
  /\ 3 <= List.length (split (Descriptor.url d) "/").
Proof.
  intros H.
  pose proof (parseReqline_url _ _ _ H) as Hurl.
  repeat split; [eapply parseReqline_method; eassumption | assumption |].
  now apply url_has_three_parts.
Qed.

Lemma accepted_descriptor_witness :
  let d := {| Descriptor.method := "GET"; Descriptor.url := "https://";
              Descriptor.headers := JObj []; Descriptor.query := JObj [];
              Descriptor.body := JObj [] |} in
  (Descriptor.method d = "GET" \/ Descriptor.method d = "POST")
  /\ (startsWith (Descriptor.url d) "http://" = true
      \/ startsWith (Descriptor.url d) "https://" = true)
  /\ 3 <= List.length (split (Descriptor.url d) "/").
Proof.
  intros d.
  apply (accepted_descriptor sample_JSON_parse "HTTP GET | URL https://" d).
  vm_compute; reflexivity.
Defined.

(** X2.  When [parseReqline] fails, the error is a plain [Error] whose message
    is one of: "Invalid reqline format. Expected at least HTTP and URL
    parts.", "Missing required HTTP keyword", "Invalid HTTP method. Only
    GET and POST are supported", "Missing required URL keyword", "Invalid
    URL format. Must start with http:// or https://", "Invalid JSON format
    in <HEADERS|QUERY|BODY> section", or "Unknown keyword: <word>".  The
    messages "Missing HTTP method", "Missing URL value" and "Invalid URL
    format. Missing domain or path" are never produced. *)
Theorem parseReqline_failures
        (JSON_parse : string -> option json) (reqline : string) (error : JsError.t) :
  parseReqline JSON_parse reqline = Throw error ->
  error = Error (JsError.message error)
  /\ parser_message (JsError.message error)
  /\ JsError.message error <> "Missing HTTP method"
  /\ JsError.message error <> "Missing URL value"
  /\ JsError.message error <> "Invalid URL format. Missing domain or path".
Proof.
  intros H.
  pose proof (parseReqline_fails_as_parser JSON_parse reqline) as Hfail.
  rewrite H in Hfail. destruct Hfail as [Hplain Hmsg].
  split; [assumption |]. split; [assumption |].
  assert (Hnever : forall m,
             In m ["Missing HTTP method"; "Missing URL value";
                   "Invalid URL format. Missing domain or path"] ->
             JsError.message error <> m).
  { intros m Hm Heq. rewrite Heq in Hmsg.
    destruct Hmsg as [Hin | (word & Hword)].
    - simpl in Hin, Hm. clear Heq. intuition congruence.
    - simpl in Hm. destruct Hm as [<- | [<- | [<- | []]]]; discriminate Hword. }
  repeat split; apply Hnever; simpl; auto.
Qed.

Lemma parseReqline_failures_witness :
  let error := Error "Missing required HTTP keyword" in
  error = Error (JsError.message error)
  /\ parser_message (JsError.message error)
  /\ JsError.message error <> "Missing HTTP method"
  /\ JsError.message error <> "Missing URL value"
  /\ JsError.message error <> "Invalid URL format. Missing domain or path".
Proof.
  intros error.
  apply (parseReqline_failures sample_JSON_parse "HTTP   | URL https://x.com/y" error).
  vm_compute; reflexivity.
Defined.

(** X3.  How the endpoint answers a reqline the parser refuses: with status
    400 and the parser's own message, except for "Invalid URL format. Must
    start with http:// or https://", which comes back prefixed with
    "Network error: ".  No request reaches the HTTP client. *)
Theorem parser_failure_replies
        (JSON_parse : string -> option json) (w : world)
        (text : string) (error : JsError.t) :
  text <> "" ->
  parseReqline JSON_parse text = Throw error ->
  requests JSON_parse w (with_reqline text) = []
  /\ respond JSON_parse w (with_reqline text)
     = {| Reply.status := 400;
          Reply.data :=
            Failure true
              (if String.eqb (JsError.message error)
                    "Invalid URL format. Must start with http:// or https://"
               then "Network error: " ++ JsError.message error
               else JsError.message error) |}.
Proof.
  intros Htext Hparse.
  assert (Hfalsy : falsy (JStr text) = false)
    by (destruct text; [congruence | reflexivity]).
  assert (Hprep : prepare JSON_parse (JStr text) = Throw error)
    by (unfold prepare; cbn [as_string bind]; now rewrite Hparse).
  pose proof (parseReqline_fails_as_parser JSON_parse text) as Hparser.
  rewrite Hparse in Hparser. destruct Hparser as [Hplain Hmsg].
  rewrite requests_cases, respond_cases.
  cbn [with_reqline RequestBody.reqline]. rewrite Hfalsy, Hprep.
  split; [reflexivity |].
  rewrite on_error_cases, (has_marker_of_parser_message _ Hmsg), Hplain.
  cbn [JsError.message JsError.response Error].
  now destruct (String.eqb _ _).
Qed.

Lemma parser_failure_replies_witness :
  requests sample_JSON_parse sample_world (with_reqline "HTTP GET | URL ftp://x.com/") = []
  /\ respond sample_JSON_parse sample_world (with_reqline "HTTP GET | URL ftp://x.com/")
     = {| Reply.status := 400;
          Reply.data :=
            Failure true
              (if String.eqb
                    (JsError.message
                       (Error "Invalid URL format. Must start with http:// or https://"))
                    "Invalid URL format. Must start with http:// or https://"
               then "Network error: "
                      ++ JsError.message
                           (Error "Invalid URL format. Must start with http:// or https://")
               else JsError.message
                      (Error "Invalid URL format. Must start with http:// or https://")) |}.
Proof.
  apply (parser_failure_replies sample_JSON_parse sample_world
           "HTTP GET | URL ftp://x.com/"
           (Error "Invalid URL format. Must start with http:// or https://")).
  - discriminate.
  - vm_compute; reflexivity.
Defined.

(** X4.  What the parser does with a keyword that only blanks follow.  Let
    [blanks] be white space throughout.  A reqline of two segments or more
    whose first segment is [HTTP] followed by [blanks] fails with "Missing
    required HTTP keyword"; one whose first segment is accepted and whose
    second segment is [URL] followed by [blanks] fails with "Missing
    required URL keyword". *)
Theorem keyword_then_blanks_is_no_keyword
        (JSON_parse : string -> option json) (reqline blanks : string) :
  trimStart blanks = "" ->
  (forall rest,
      split reqline " | " = ("HTTP" ++ blanks) :: rest ->
      rest <> [] ->
      parseReqline JSON_parse reqline = Throw (Error "Missing required HTTP keyword"))
  /\ (forall first rest result,
         split reqline " | " = first :: ("URL" ++ blanks) :: rest ->
         parse_part JSON_parse 0 first initial = Normal result ->
         parseReqline JSON_parse reqline = Throw (Error "Missing required URL keyword")).
Proof.
  intros Hblank. split.
  - intros rest Hsplit Hrest. unfold parseReqline. rewrite Hsplit.
    destruct rest as [| second rest]; [congruence |].
    cbn [List.length Nat.ltb Nat.leb parse_parts].
    unfold parse_part at 1. cbn [Nat.eqb].
    now rewrite trim_HTTP_then_blanks.
  - intros first rest result Hsplit Hfirst. unfold parseReqline. rewrite Hsplit.
    cbn [List.length Nat.ltb Nat.leb parse_parts].
    rewrite Hfirst. cbn [bind].
    unfold parse_part at 1. cbn [Nat.eqb].
    now rewrite trim_URL_then_blanks.
Qed.

Lemma keyword_then_blanks_is_no_keyword_witness :
  parseReqline sample_JSON_parse "HTTP   | URL https://x.com/y"
  = Throw (Error "Missing required HTTP keyword").
Proof.
  apply (proj1 (keyword_then_blanks_is_no_keyword sample_JSON_parse
                  "HTTP   | URL https://x.com/y" "  " eq_refl)
               ["URL https://x.com/y"]).
  - reflexivity.
  - discriminate.
Defined.

(** * The handler and its surroundings *)

(** X5.  One invocation sends at most one request to the HTTP client, and
    which request it is depends on the request body alone: neither on the
    clock nor on how the client settles. *)
Theorem at_most_one_request
        (JSON_parse : string -> option json) (w w' : world) (rc_body : RequestBody.t) :
  List.length (requests JSON_parse w rc_body) <= 1
  /\ requests JSON_parse w rc_body = requests JSON_parse w' rc_body.
Proof.
  rewrite !requests_cases.
  destruct (RequestBody.reqline rc_body) as [reqline |]; [| simpl; auto].
  destruct (falsy reqline); [simpl; auto |].
  destruct (prepare JSON_parse reqline) as [[[parsed fullUrl] cfg] | e]; simpl; auto.
Qed.

(** X6.  A success envelope reports what happened: the echoed URL and
    headers are those of the request that was sent, an attached payload is
    the echoed body, status and payload are those of the upstream
    response, the two timestamps are the first and second reading of the
    clock, and the duration is their difference, not negative when the
    clock did not go back. *)
Theorem success_envelope
        (JSON_parse : string -> option json) (w : world) (rc_body : RequestBody.t)
        (request : RequestEcho.t) (report : ResponseReport.t) :
  Reply.data (respond JSON_parse w rc_body) = Envelope request report ->
  exists requestConfig response,
    requests JSON_parse w rc_body = [requestConfig]
    /\ axios w requestConfig = Fulfilled response
    /\ Reply.status (respond JSON_parse w rc_body) = 200%Z
    /\ RequestEcho.full_url request = RequestConfig.url requestConfig
    /\ RequestEcho.headers request = RequestConfig.headers requestConfig
    /\ (forall payload,
          RequestConfig.data requestConfig = Some payload ->
          payload = RequestEcho.body request)
    /\ ResponseReport.http_status report = Response.status response
    /\ ResponseReport.response_data report = Response.data response
    /\ ResponseReport.request_start_timestamp report = clock w 0
    /\ ResponseReport.request_stop_timestamp report = clock w 1
    /\ ResponseReport.duration report
       = (ResponseReport.request_stop_timestamp report
          - ResponseReport.request_start_timestamp report)%Z
    /\ ((clock w 0 <= clock w 1)%Z -> (0 <= ResponseReport.duration report)%Z).
Proof.
  rewrite respond_cases, requests_cases.
  destruct (RequestBody.reqline rc_body) as [reqline |]; [| discriminate].
  destruct (falsy reqline); [discriminate |].
  destruct (prepare JSON_parse reqline) as [[[parsed fullUrl] cfg] | e] eqn:Hprep;
    [| rewrite on_error_cases; discriminate].
  destruct (axios w cfg) as [response | error] eqn:Haxios;
    [| rewrite on_error_cases; discriminate].
  cbn [Reply.data Reply.status]. intros H. injection H as <- <-.
  apply prepare_normal in Hprep as (text & _ & _ & _ & _ & Hu & Hh & _ & Hd & _).
  exists cfg, response. cbn.
  repeat match goal with |- _ /\ _ => split end; auto; try lia.
  intros payload Hpayload. destruct Hd as [Hd | Hd]; congruence.
Qed.

Lemma success_envelope_witness :
  exists requestConfig response,
    requests sample_JSON_parse sample_world
             (with_reqline "HTTP GET | URL https://api.example.com/x") = [requestConfig]
    /\ axios sample_world requestConfig = Fulfilled response
    /\ Reply.status
         (respond sample_JSON_parse sample_world
                  (with_reqline "HTTP GET | URL https://api.example.com/x")) = 200%Z
    /\ "https://api.example.com/x" = RequestConfig.url requestConfig
    /\ JObj [] = RequestConfig.headers requestConfig
    /\ (forall payload,
          RequestConfig.data requestConfig = Some payload -> payload = JObj [])
    /\ 200%Z = Response.status response
    /\ JStr "pong" = Response.data response
    /\ 1700000000000%Z = clock sample_world 0
    /\ 1700000000007%Z = clock sample_world 1
    /\ 7%Z = (1700000000007 - 1700000000000)%Z
    /\ ((clock sample_world 0 <= clock sample_world 1)%Z -> (0 <= 7)%Z).
Proof.
  exact (success_envelope sample_JSON_parse sample_world
           (with_reqline "HTTP GET | URL https://api.example.com/x")
           {| RequestEcho.query := JObj [];
              RequestEcho.body := JObj [];
              RequestEcho.headers := JObj [];
              RequestEcho.full_url := "https://api.example.com/x" |}
           {| ResponseReport.http_status := 200;
              ResponseReport.duration := 7;
              ResponseReport.request_start_timestamp := 1700000000000;
              ResponseReport.request_stop_timestamp := 1700000000007;
              ResponseReport.response_data := JStr "pong" |}
           eq_refl).
Defined.

(** X7.  A [reqline] that is not a string never reaches the parser or the
    HTTP client.  A falsy value ([null], [false], [0]) is answered like a
    missing one; any other value (a number, [true], an array, an object)
    fails at [reqline.split] and is answered with status 400 and a message
    that starts with "Network error: ". *)
Theorem reqline_that_is_no_string
        (JSON_parse : string -> option json) (w : world) (v : json) :
  (forall text, v <> JStr text) ->
  let rc_body := {| RequestBody.reqline := Some v |} in
  requests JSON_parse w rc_body = []
  /\ Reply.status (respond JSON_parse w rc_body) = 400%Z
  /\ (falsy v = true ->
      Reply.data (respond JSON_parse w rc_body)
      = Failure true "Missing reqline parameter")
  /\ (falsy v = false ->
      exists message,
        Reply.data (respond JSON_parse w rc_body)
        = Failure true ("Network error: " ++ message)).
Proof.
  intros Hv rc_body. subst rc_body.
  rewrite requests_cases, respond_cases. cbn [RequestBody.reqline].
  destruct (falsy v) eqn:Hfalsy.
  - repeat split; auto. discriminate.
  - assert (Hprep : prepare JSON_parse v = Throw TypeError_split_not_function).
    { destruct v; try reflexivity. now destruct (Hv s). }
    rewrite Hprep. repeat split; auto; try discriminate.
    intros _. eexists. reflexivity.
Qed.

Lemma reqline_that_is_no_string_witness :
  let rc_body := {| RequestBody.reqline := Some (JNum "5") |} in
  requests sample_JSON_parse sample_world rc_body = []
  /\ Reply.status (respond sample_JSON_parse sample_world rc_body) = 400%Z
  /\ (falsy (JNum "5") = true ->
      Reply.data (respond sample_JSON_parse sample_world rc_body)
      = Failure true "Missing reqline parameter")
  /\ (falsy (JNum "5") = false ->
      exists message,
        Reply.data (respond sample_JSON_parse sample_world rc_body)
        = Failure true ("Network error: " ++ message)).
Proof.
  apply (reqline_that_is_no_string sample_JSON_parse sample_world (JNum "5")).
  intros text. discriminate.
Defined.

(** * The URL builder and its query string *)

Lemma prefix_of_append (s t : string) : String.prefix s (s ++ t) = true.
Proof.
  induction s as [| c s IH]; simpl; [now destruct t |].
  destruct (ascii_dec c c); [assumption | congruence].
Qed.

(** X8.  [buildFullUrl] never alters the base URL: what it returns starts
    with the base URL, and is the base URL itself or the base URL followed
    by the separator ([&] if the base URL contains [?], else [?]) and a
    query string.  This holds for every query value, mapping or not. *)
Theorem buildFullUrl_extends_base (baseUrl : string) (queryParams : json) (fullUrl : string) :
  buildFullUrl baseUrl queryParams = Normal fullUrl ->
  startsWith fullUrl baseUrl = true
  /\ (fullUrl = baseUrl
      \/ exists queryString,
          fullUrl = baseUrl ++ (if includes baseUrl "?" then "&" else "?") ++ queryString).
Proof.
  unfold buildFullUrl, startsWith. intros H.
  destruct (falsy queryParams).
  { apply Normal_inj in H. subst fullUrl.
    rewrite <- (append_empty_right baseUrl) at 2.
    split; [apply prefix_of_append | now left]. }
  apply bind_normal in H as (keys & _ & H).
  destruct (Nat.eqb (List.length keys) 0).
  { apply Normal_inj in H. subst fullUrl.
    rewrite <- (append_empty_right baseUrl) at 2.
    split; [apply prefix_of_append | now left]. }
  apply bind_normal in H as (entries & _ & H).
  apply bind_normal in H as (pairs & _ & H).
  apply Normal_inj in H. subst fullUrl.
  split; [apply prefix_of_append | right; eexists; reflexivity].
Qed.

Lemma buildFullUrl_extends_base_witness :
  startsWith "https://x.com/a?b=1&0=x&1=y" "https://x.com/a?b=1" = true
  /\ ("https://x.com/a?b=1&0=x&1=y" = "https://x.com/a?b=1"
      \/ exists queryString,
          "https://x.com/a?b=1&0=x&1=y"
          = "https://x.com/a?b=1"
              ++ (if includes "https://x.com/a?b=1" "?" then "&" else "?") ++ queryString).
Proof.
  apply (buildFullUrl_extends_base "https://x.com/a?b=1" (JArr [JStr "x"; JStr "y"])).
  vm_compute; reflexivity.
Defined.

(** ** Percent-encoding *)

Lemma hex_digit_facts (n : N) :
  (n < 16)%N ->
  unreserved (hex_digit n) = true /\ hex_value (hex_digit n) = Some n.
Proof.
  intros Hn.
  assert (Hcases : In n [0; 1; 2; 3; 4; 5; 6; 7; 8; 9; 10; 11; 12; 13; 14; 15]%N).
  { simpl. lia. }
  simpl in Hcases.
  repeat (destruct Hcases as [<- | Hcases]; [split; vm_compute; reflexivity |]).
  contradiction.
Qed.

Lemma code_halves (c : ascii) :
  (code c / 16 < 16)%N /\ (code c mod 16 < 16)%N
  /\ ascii_of_N (16 * (code c / 16) + code c mod 16) = c.
Proof.
  unfold code. pose proof (N_ascii_bounded c) as Hc.
  split; [apply N.Div0.div_lt_upper_bound; lia |].
  split; [apply N.mod_lt; lia |].
  rewrite <- N.div_mod by lia. apply ascii_N_embedding.
Qed.

Lemma unreserved_is_no_percent (c : ascii) :
  unreserved c = true -> Ascii.eqb c "%" = false.
Proof.
  intros Hc. destruct (Ascii.eqb_spec c "%") as [-> | ]; [discriminate Hc | reflexivity].
Qed.

Lemma encodeURIComponent_facts (s : string) :
  percent_decode (encodeURIComponent s) = s
  /\ Forall (fun c => unreserved c = true \/ c = "%"%char) (bytes (encodeURIComponent s))
  /\ (forall c, In c ["&"; "="; "?"; "#"; "/"; "+"; " "]%char ->
                ~ In c (bytes (encodeURIComponent s))).
Proof.
  assert (Hsafe : Forall (fun c => unreserved c = true \/ c = "%"%char)
                         (bytes (encodeURIComponent s))).
  { induction s as [| c s IH]; cbn [encodeURIComponent]; [constructor |].
    destruct (code_halves c) as (Hhi & Hlo & _).
    destruct (unreserved c) eqn:Hc; cbn [bytes list_ascii_of_string].
    - constructor; [now left | exact IH].
    - constructor; [now right |].
      constructor; [left; now apply hex_digit_facts |].
      constructor; [left; now apply hex_digit_facts | exact IH]. }
  split; [| split; [exact Hsafe |]].
  - clear Hsafe.
    induction s as [| c s IH]; cbn [encodeURIComponent]; [reflexivity |].
    destruct (unreserved c) eqn:Hc.
    + cbn [percent_decode]. rewrite (unreserved_is_no_percent _ Hc). now rewrite IH.
    + destruct (code_halves c) as (Hhi & Hlo & Hback).
      cbn [percent_decode]. change (Ascii.eqb "%" "%") with true. cbn iota.
      rewrite (proj2 (hex_digit_facts _ Hhi)), (proj2 (hex_digit_facts _ Hlo)).
      now rewrite Hback, IH.
  - intros c Hc Hin.
    rewrite Forall_forall in Hsafe. specialize (Hsafe c Hin).
    simpl in Hc.
    repeat (destruct Hc as [<- | Hc]; [destruct Hsafe; discriminate |]).
    contradiction.
Qed.

(** X9.  Percent-encoding loses nothing: decoding what
    [encodeURIComponent] produced gives the text back.  What it produces
    consists of letters, digits, [- _ . ! ~ * ' ( )] and [%] only, so it
    contains none of [& = ? # / +] or a space.  Called on a string, the
    function returns this encoding when the string is well formed, and
    throws a [URIError] when it holds a lone surrogate. *)
Theorem encodeURIComponent_round_trip (s : string) :
  percent_decode (encodeURIComponent s) = s
  /\ Forall (fun c => unreserved c = true \/ c = "%"%char) (bytes (encodeURIComponent s))
  /\ (forall c, In c ["&"; "="; "?"; "#"; "/"; "+"; " "]%char ->
                ~ In c (bytes (encodeURIComponent s)))
  /\ URI.encodeURIComponent (JStr s)
     = (if isWellFormed s then Normal (encodeURIComponent s)
        else Throw (Error "URI malformed")).
Proof.
  destruct (encodeURIComponent_facts s) as (Hback & Hsafe & Hfree).
  repeat split; assumption.
Qed.

(** ** Splitting at a character that the pieces do not contain *)

Lemma bytes_of_append (a b : string) : bytes (a ++ b) = (bytes a ++ bytes b)%list.
Proof. induction a as [| c a IH]; simpl; [reflexivity | now rewrite <- IH]. Qed.

Lemma empty_is_prefix (s : string) : String.prefix "" s = true.
Proof. now destruct s. Qed.

Section SplitAtChar.

Variable c : ascii.

Lemma split_before_char (piece rest : string) :
  ~ In c (bytes piece) ->
  split (piece ++ String c rest) (String c "") = piece :: split rest (String c "").
Proof.
  unfold split. induction piece as [| d piece IH]; intros Hfree.
  - cbn [append split_from String.prefix String.length Nat.sub].
    destruct (ascii_dec c c) as [_ | Hne]; [| congruence].
    now rewrite empty_is_prefix.
  - cbn [append split_from String.prefix].
    destruct (ascii_dec c d) as [-> | _]; [exfalso; apply Hfree; now left |].
    rewrite IH; [reflexivity |].
    intros Hin. apply Hfree. now right.
Qed.

Lemma split_without_char (piece : string) :
  ~ In c (bytes piece) -> split piece (String c "") = [piece].
Proof.
  unfold split. induction piece as [| d piece IH]; intros Hfree; [reflexivity |].
  cbn [split_from String.prefix].
  destruct (ascii_dec c d) as [-> | _]; [exfalso; apply Hfree; now left |].
  rewrite IH; [reflexivity |].
  intros Hin. apply Hfree. now right.
Qed.

Lemma split_of_join (pieces : list string) :
  pieces <> [] ->
  Forall (fun piece => ~ In c (bytes piece)) pieces ->
  split (join (String c "") pieces) (String c "") = pieces.
Proof.
  induction pieces as [| piece rest IH]; intros Hne Hfree; [congruence |].
  inversion Hfree as [| ? ? Hpiece Hrest]; subst.
  destruct rest as [| next rest].
  - cbn [join]. now apply split_without_char.
  - cbn [join]. cbn [append].
    rewrite split_before_char by assumption.
    f_equal. apply IH; [discriminate | assumption].
Qed.

End SplitAtChar.

Lemma key_value_read_back (entry : string * string) :
  read_pair (key_value entry) = entry
  /\ ~ In "&"%char (bytes (key_value entry)).
Proof.
  destruct entry as [key text].
  unfold read_pair, key_value. cbn [fst snd].
  destruct (encodeURIComponent_facts key) as (Hk & _ & Hkfree).
  destruct (encodeURIComponent_facts text) as (Hv & _ & Hvfree).
  split.
  - change ("=" ++ encodeURIComponent text)
      with (String "=" (encodeURIComponent text)).
    rewrite split_before_char by (apply Hkfree; simpl; tauto).
    rewrite split_without_char by (apply Hvfree; simpl; tauto).
    now rewrite Hk, Hv.
  - rewrite bytes_of_append, in_app_iff. cbn [append bytes list_ascii_of_string In].
    intros [Hin | [Heq | Hin]]; [| discriminate Heq |].
    + revert Hin. apply Hkfree. simpl; tauto.
    + revert Hin. apply Hvfree. simpl; tauto.
Qed.

(** X10.  The query string [buildFullUrl] appends can be read back.  Take
    a mapping that is not empty, every value of which has a text
    [String(value)], with no lone surrogate in a key or in such a text.
    The query string, cut at [&], each pair cut at [=] and
    percent-decoded, yields the keys of the mapping and the texts of their
    values, in the order the mapping is enumerated.  No key or value can
    break out of its pair. *)
Theorem query_string_round_trip
        (baseUrl : string) (fields : list (string * json))
        (entries : list (string * string)) :
  fields <> [] ->
  Forall2 text_of (own_order fields) entries ->
  exists queryString,
    buildFullUrl baseUrl (JObj fields)
    = Normal (baseUrl ++ (if includes baseUrl "?" then "&" else "?") ++ queryString)
    /\ read_query queryString = entries.
Proof.
  intros Hne Hall.
  exists (join "&" (map key_value entries)).
  assert (Hentries : entries <> []).
  { intros ->. inversion Hall as [Horder |]. symmetry in Horder.
    now apply own_order_not_empty in Horder. }
  split.
  - apply buildFullUrl_of_texts; [assumption |]. exists entries. auto.
  - unfold read_query.
    rewrite split_of_join.
    + rewrite map_map. rewrite <- (map_id entries) at 2.
      apply map_ext. intros entry. apply key_value_read_back.
    + destruct entries; [congruence | discriminate].
    + apply Forall_forall. intros piece Hin.
      apply in_map_iff in Hin as (entry & <- & _). apply key_value_read_back.
Qed.

Lemma query_string_round_trip_witness :
  exists queryString,
    buildFullUrl "https://x.com/s"
                 (JObj [("q", JStr "a&b=c d"); ("7", JArr [JNum "1.5"; JNull; JObj []])])
    = Normal ("https://x.com/s"
                ++ (if includes "https://x.com/s" "?" then "&" else "?") ++ queryString)
    /\ read_query queryString = [("7", "1.5,,[object Object]"); ("q", "a&b=c d")].
Proof.
  apply (query_string_round_trip "https://x.com/s"
           [("q", JStr "a&b=c d"); ("7", JArr [JNum "1.5"; JNull; JObj []])]
           [("7", "1.5,,[object Object]"); ("q", "a&b=c d")]).
  - discriminate.
  - repeat constructor.
Defined.

(** * The optional sections *)

Section Sections.

Variable JSON_parse : string -> option json.

(** From index 2 on the index plays no part: a segment is handled by its
    keyword, and a keyword is always followed by some text. *)
Lemma parse_part_optional i segment result :
  2 <= i ->
  parse_part JSON_parse i segment result
  = match keyword_of (trim segment) with
    | Some k =>
        match JSON_parse (remainder k (trim segment)) with
        | Some v => Normal (store k v result)
        | None =>
            Throw (Error ("Invalid JSON format in " ++ keyword_text k ++ " section"))
        end
    | None => Throw (Error ("Unknown keyword: " ++ first_word (trim segment)))
    end.
Proof.
  intros Hi. destruct i as [| [| i]]; try lia.
  unfold parse_part, keyword_of, remainder, parse_section. cbn [Nat.eqb].
  set (part := trim segment).
  destruct (startsWith part "HEADERS ") eqn:Hh.
  { cbn [keyword_text String.length Nat.add].
    destruct (String.eqb_spec (trim (substring 8 part)) "") as [Hempty | _].
    - exfalso. apply startsWith_cut in Hh.
      apply (trim_keeps_text_after_space segment "HEADERS" (substring 8 part)); assumption.
    - now destruct (JSON_parse _). }
  destruct (startsWith part "QUERY ") eqn:Hq.
  { cbn [keyword_text String.length Nat.add].
    destruct (String.eqb_spec (trim (substring 6 part)) "") as [Hempty | _].
    - exfalso. apply startsWith_cut in Hq.
      apply (trim_keeps_text_after_space segment "QUERY" (substring 6 part)); assumption.
    - now destruct (JSON_parse _). }
  destruct (startsWith part "BODY ") eqn:Hb.
  { cbn [keyword_text String.length Nat.add].
    destruct (String.eqb_spec (trim (substring 5 part)) "") as [Hempty | _].
    - exfalso. apply startsWith_cut in Hb.
      apply (trim_keeps_text_after_space segment "BODY" (substring 5 part)); assumption.
    - now destruct (JSON_parse _). }
  now rewrite split_space_head.
Qed.

(** The parser fails where the loop first fails. *)
Lemma parseReqline_fails_at reqline i segment result error :
  nth_error (split reqline " | ") i = Some segment ->
  1 <= i ->
  parse_parts JSON_parse 0 (firstn i (split reqline " | ")) initial = Normal result ->
  parse_part JSON_parse i segment result = Throw error ->
  parseReqline JSON_parse reqline = Throw error.
Proof.
  intros Hnth Hi Hfront Hfail.
  unfold parseReqline.
  destruct (nth_error_split _ _ Hnth) as (front & back & Hparts & Hlen).
  assert (Hfirst : firstn i (split reqline " | ") = front).
  { rewrite Hparts, <- Hlen, firstn_app, Nat.sub_diag, firstn_all. simpl.
    now rewrite app_nil_r. }
  rewrite Hfirst in Hfront.
  assert (Hlong : Nat.ltb (List.length (split reqline " | ")) 2 = false).
  { apply Nat.ltb_ge. rewrite Hparts, length_app. simpl. lia. }
  rewrite Hlong, Hparts, parse_parts_app, Hfront. simpl.
  now rewrite Hlen, Hfail.
Qed.

(** After two segments or more the method and the URL are set. *)
Lemma head_sets_method_and_url front result :
  2 <= List.length front ->
  parse_parts JSON_parse 0 front initial = Normal result ->
  missing (Draft.method result) = false /\ missing (Draft.url result) = false.
Proof.
  intros Hlen H.
  destruct front as [| s0 [| s1 rest]]; simpl in Hlen; try lia.
  simpl in H.
  apply bind_normal in H as (r0 & H0 & H).
  apply bind_normal in H as (r1 & H1 & H).
  pose proof (parse_part_first_sets_method _ _ _ _ H0) as Hm0.
  pose proof (parse_part_later_keeps_method _ 1 _ _ _ (le_n 1) H1) as Hm1.
  pose proof (parse_parts_later_keep_method _ _ _ _ _ (le_S _ _ (le_n 1)) H) as Hm.
  apply parse_part_second_sets_url in H1 as (text & Hu1 & Hscheme).
  apply parse_parts_later_keep_url in H; [| lia].
  rewrite Hm, Hm1, H, Hu1. split.
  - destruct Hm0 as [-> | ->]; reflexivity.
  - destruct text; [| reflexivity].
    destruct Hscheme as [Hs | Hs]; discriminate Hs.
Qed.

Lemma parse_part_keeps_other_sections i segment k result result' :
  2 <= i ->
  keyword_of (trim segment) <> Some k ->
  parse_part JSON_parse i segment result = Normal result' ->
  draft_section k result' = draft_section k result.
Proof.
  intros Hi Hk H. rewrite parse_part_optional in H by assumption.
  destruct (keyword_of (trim segment)) as [k' |]; [| discriminate].
  destruct (JSON_parse _); [| discriminate].
  apply Normal_inj in H. subst result'.
  destruct k, k'; try reflexivity; congruence.
Qed.

Lemma parse_parts_keep_other_sections parts k :
  Forall (fun segment => keyword_of (trim segment) <> Some k) parts ->
  forall i result result',
    2 <= i ->
    parse_parts JSON_parse i parts result = Normal result' ->
    draft_section k result' = draft_section k result.
Proof.
  induction 1 as [| segment rest Hseg Hrest IH]; intros i result result' Hi H; simpl in H.
  - now apply Normal_inj in H; subst.
  - apply bind_normal in H as (r & Hpart & H).
    apply IH in H; [| lia].
    apply (parse_part_keeps_other_sections _ _ _ _ _ Hi Hseg) in Hpart.
    congruence.
Qed.

Lemma finish_section k result d :
  finish result = Normal d -> section_value k d = draft_section k result.
Proof.
  intros H. apply finish_keeps_sections in H as (Hh & Hq & Hb).
  now destruct k.
Qed.

End Sections.

(** X11.  A section whose text is not JSON is reported under its own name:
    when the segments before it were processed without error, a segment at
    index 2 or more with keyword [HEADERS], [QUERY] or [BODY] whose
    remainder [JSON.parse] refuses makes the parser fail with "Invalid
    JSON format in <keyword> section". *)
Theorem malformed_section
        (JSON_parse : string -> option json) (reqline : string)
        (i : nat) (segment : string) (k : section_keyword) (result : Draft.t) :
  nth_error (split reqline " | ") i = Some segment ->
  2 <= i ->
  keyword_of (trim segment) = Some k ->
  JSON_parse (remainder k (trim segment)) = None ->
  parse_parts JSON_parse 0 (firstn i (split reqline " | ")) initial = Normal result ->
  parseReqline JSON_parse reqline
  = Throw (Error ("Invalid JSON format in " ++ keyword_text k ++ " section")).
Proof.
  intros Hnth Hi Hk Hjson Hfront.
  apply (parseReqline_fails_at JSON_parse reqline i segment result); auto; [lia |].
  rewrite parse_part_optional by assumption. now rewrite Hk, Hjson.
Qed.

Lemma malformed_section_witness :
  parseReqline sample_JSON_parse "HTTP GET | URL https://x.com/ | HEADERS {} | BODY {oops"
  = Throw (Error ("Invalid JSON format in " ++ keyword_text BODY ++ " section")).
Proof.
  apply (malformed_section sample_JSON_parse
           "HTTP GET | URL https://x.com/ | HEADERS {} | BODY {oops" 3 "BODY {oops" BODY
           {| Draft.method := Some "GET"; Draft.url := Some "https://x.com/";
              Draft.headers := JObj []; Draft.query := JObj [];
              Draft.body := JObj [] |});
    solve [ reflexivity | lia | vm_compute; reflexivity ].
Defined.

(** X12.  The value of a section is that of its last occurrence, stored as
    [JSON.parse] gave it, object or not: in an accepted reqline, if a
    segment at index 2 or more has keyword [k] and decodes to [v], and no
    later segment has keyword [k], the descriptor holds [v] for [k]. *)
Theorem last_occurrence_wins
        (JSON_parse : string -> option json) (reqline : string)
        (front : list string) (segment : string) (back : list string)
        (k : section_keyword) (v : json) (d : Descriptor.t) :
  split reqline " | " = (front ++ segment :: back)%list ->
  2 <= List.length front ->
  keyword_of (trim segment) = Some k ->
  JSON_parse (remainder k (trim segment)) = Some v ->
  Forall (fun later => keyword_of (trim later) <> Some k) back ->
  parseReqline JSON_parse reqline = Normal d ->
  section_value k d = v.
Proof.
  intros Hsplit Hlen Hk Hjson Hback Hparse.
  unfold parseReqline in Hparse. rewrite Hsplit in Hparse.
  destruct (Nat.ltb _ 2); [discriminate |].
  apply bind_normal in Hparse as (result & Hloop & Hfin).
  rewrite parse_parts_app in Hloop.
  apply bind_normal in Hloop as (r0 & _ & Hloop).
  cbn [parse_parts] in Hloop.
  apply bind_normal in Hloop as (r1 & Hpart & Hloop).
  rewrite parse_part_optional, Hk, Hjson in Hpart by lia.
  apply Normal_inj in Hpart. subst r1.
  apply (parse_parts_keep_other_sections _ _ k Hback) in Hloop; [| lia].
  rewrite (finish_section _ _ _ Hfin), Hloop.
  now destruct k.
Qed.

Lemma last_occurrence_wins_witness :
  section_value BODY
    {| Descriptor.method := "POST"; Descriptor.url := "http://x.com/y";
       Descriptor.headers := JObj []; Descriptor.query := JObj [];
       Descriptor.body := JObj [("a", JNum "1")] |}
  = JObj [("a", JNum "1")].
Proof.
  apply (last_occurrence_wins sample_JSON_parse
           ("HTTP POST | URL http://x.com/y | BODY {} | BODY " ++ text_a1 ++ " | QUERY {}")
           ["HTTP POST"; "URL http://x.com/y"; "BODY {}"] ("BODY " ++ text_a1)
           ["QUERY {}"] BODY (JObj [("a", JNum "1")])).
  - vm_compute; reflexivity.
  - simpl; lia.
  - vm_compute; reflexivity.
  - vm_compute; reflexivity.
  - repeat constructor. vm_compute. discriminate.
  - vm_compute; reflexivity.
Defined.

(** X13.  A section that no segment names keeps its default, the empty
    object: in an accepted reqline, if no segment from index 2 on has
    keyword [k], the descriptor holds [{}] for [k]. *)
Theorem absent_section_is_empty
        (JSON_parse : string -> option json) (reqline : string)
        (k : section_keyword) (d : Descriptor.t) :
  Forall (fun segment => keyword_of (trim segment) <> Some k)
         (skipn 2 (split reqline " | ")) ->
  parseReqline JSON_parse reqline = Normal d ->
  section_value k d = JObj [].
Proof.
  intros Hnone Hparse.
  unfold parseReqline in Hparse.
  destruct (Nat.ltb_spec (List.length (split reqline " | ")) 2) as [| Hlen];
    [discriminate |].
  apply bind_normal in Hparse as (result & Hloop & Hfin).
  destruct (split reqline " | ") as [| s0 [| s1 rest]]; simpl in Hlen; try lia.
  cbn [skipn] in Hnone. cbn [parse_parts] in Hloop.
  apply bind_normal in Hloop as (r0 & H0 & Hloop).
  apply bind_normal in Hloop as (r1 & H1 & Hloop).
  apply (parse_parts_keep_other_sections _ _ k Hnone) in Hloop; [| lia].
  apply parse_part_head_keeps_sections in H0 as (Hh0 & Hq0 & Hb0); [| lia].
  apply parse_part_head_keeps_sections in H1 as (Hh1 & Hq1 & Hb1); [| lia].
  rewrite (finish_section _ _ _ Hfin), Hloop.
  destruct k; cbn [draft_section];
    rewrite ?Hh1, ?Hh0, ?Hq1, ?Hq0, ?Hb1, ?Hb0; reflexivity.
Qed.

Lemma absent_section_is_empty_witness :
  section_value QUERY
    {| Descriptor.method := "POST"; Descriptor.url := "http://x.com/y";
       Descriptor.headers := JObj []; Descriptor.query := JObj [];
       Descriptor.body := JObj [("a", JNum "1")] |}
  = JObj [].
Proof.
  apply (absent_section_is_empty sample_JSON_parse
           ("HTTP POST | URL http://x.com/y | BODY " ++ text_a1) QUERY).
  - repeat constructor. vm_compute. discriminate.
  - vm_compute; reflexivity.
Defined.

Lemma store_commutes (ka kb : section_keyword) (va vb : json) (result : Draft.t) :
  ka <> kb ->
  store kb vb (store ka va result) = store ka va (store kb vb result).
Proof.
  intros Hne. destruct ka, kb; try reflexivity; congruence.
Qed.

(** X14.  The optional sections may come in any order: exchanging two
    neighbouring segments from index 2 on that have different keywords
    turns an accepted reqline into an accepted reqline with the same
    descriptor. *)
Theorem sections_commute
        (JSON_parse : string -> option json) (reqline reqline' : string)
        (front : list string) (a b : string) (back : list string) (d : Descriptor.t) :
  split reqline " | " = (front ++ a :: b :: back)%list ->
  split reqline' " | " = (front ++ b :: a :: back)%list ->
  2 <= List.length front ->
  keyword_of (trim a) <> keyword_of (trim b) ->
  parseReqline JSON_parse reqline = Normal d ->
  parseReqline JSON_parse reqline' = Normal d.
Proof.
  intros Hsplit Hsplit' Hlen Hdiff Hparse.
  unfold parseReqline in *. rewrite Hsplit in Hparse. rewrite Hsplit'.
  assert (Hsame : List.length (front ++ b :: a :: back)
                  = List.length (front ++ a :: b :: back))
    by (rewrite !length_app; reflexivity).
  rewrite Hsame.
  destruct (Nat.ltb _ 2); [discriminate |].
  apply bind_normal in Hparse as (result & Hloop & Hfin).
  rewrite parse_parts_app in Hloop |- *.
  apply bind_normal in Hloop as (r0 & Hfront & Hloop).
  rewrite Hfront. cbn [bind parse_parts] in Hloop |- *.
  apply bind_normal in Hloop as (r1 & Ha & Hloop).
  apply bind_normal in Hloop as (r2 & Hb & Hloop).
  rewrite parse_part_optional in Ha by lia.
  rewrite parse_part_optional in Hb by lia.
  destruct (keyword_of (trim a)) as [ka |] eqn:Hka; [| discriminate].
  destruct (keyword_of (trim b)) as [kb |] eqn:Hkb; [| discriminate].
  destruct (JSON_parse (remainder ka (trim a))) as [va |] eqn:Hva; [| discriminate].
  destruct (JSON_parse (remainder kb (trim b))) as [vb |] eqn:Hvb; [| discriminate].
  apply Normal_inj in Ha. apply Normal_inj in Hb. subst r1 r2.
  rewrite parse_part_optional, Hkb, Hvb by lia. cbn [bind].
  rewrite parse_part_optional, Hka, Hva by lia. cbn [bind].
  rewrite store_commutes in Hloop by congruence.
  now rewrite Hloop.
Qed.

Lemma sections_commute_witness :
  parseReqline sample_JSON_parse
               ("HTTP GET | URL https://x.com/ | HEADERS " ++ text_a1 ++ " | QUERY {}")
  = Normal {| Descriptor.method := "GET"; Descriptor.url := "https://x.com/";
              Descriptor.headers := JObj [("a", JNum "1")];
              Descriptor.query := JObj []; Descriptor.body := JObj [] |}.
Proof.
  apply (sections_commute sample_JSON_parse
           ("HTTP GET | URL https://x.com/ | QUERY {} | HEADERS " ++ text_a1)
           ("HTTP GET | URL https://x.com/ | HEADERS " ++ text_a1 ++ " | QUERY {}")
           ["HTTP GET"; "URL https://x.com/"] "QUERY {}" ("HEADERS " ++ text_a1) []).
  - vm_compute; reflexivity.
  - vm_compute; reflexivity.
  - simpl; lia.
  - vm_compute. discriminate.
  - vm_compute; reflexivity.
Defined.

(** * The head of a reqline *)

Lemma split_length_and_includes (sep : string) (s : string) :
  sep <> "" ->
  Nat.ltb (List.length (split s sep)) 2 = negb (includes s sep).
Proof.
  intros Hsep. unfold split.
  induction s as [| c s IH].
  - destruct sep; [congruence | reflexivity].
  - cbn [split_from includes].
    destruct (String.prefix sep (String c s)).
    + cbn [List.length orb negb].
      pose proof (split_from_length sep s (String.length sep - 1)) as Hlen.
      apply Nat.ltb_ge. lia.
    + cbn [orb]. rewrite <- IH.
      pose proof (split_from_length sep s 0) as Hlen.
      destruct (split_from sep 0 s); [simpl in Hlen; lia | reflexivity].
Qed.

Lemma no_format_error_bind {A B : Type} (c : completion A) (k : A -> completion B) :
  no_format_error c -> (forall a, no_format_error (k a)) -> no_format_error (bind c k).
Proof. destruct c; simpl; auto. Qed.

Lemma parse_part_no_format_error JSON_parse i segment result :
  no_format_error (parse_part JSON_parse i segment result).
Proof.
  unfold parse_part, parse_section.
  repeat first
    [ apply no_format_error_bind; [| intros ?]
    | match goal with
      | |- no_format_error (if ?b then _ else _) => destruct b
      | |- no_format_error (match ?x with _ => _ end) => destruct x
      end
    | exact I
    | (cbn [no_format_error JsError.message Error]; discriminate) ].
Qed.

Lemma parse_parts_no_format_error JSON_parse parts :
  forall i result, no_format_error (parse_parts JSON_parse i parts result).
Proof.
  induction parts as [| segment rest IH]; intros i result; simpl; [exact I |].
  apply no_format_error_bind; [apply parse_part_no_format_error | intros; apply IH].
Qed.

(** X15.  The parser answers "Invalid reqline format. Expected at least
    HTTP and URL parts." exactly for the reqlines that do not contain the
    separator [ | ] (space, bar, space). *)
Theorem format_error_iff_no_separator
        (JSON_parse : string -> option json) (reqline : string) :
  parseReqline JSON_parse reqline
  = Throw (Error "Invalid reqline format. Expected at least HTTP and URL parts.")
  <-> includes reqline " | " = false.
Proof.
  unfold parseReqline.
  rewrite (split_length_and_includes " | " reqline) by discriminate.
  destruct (includes reqline " | "); cbn [negb]; split; auto; try discriminate.
  intros H. exfalso.
  pose proof (parse_parts_no_format_error JSON_parse (split reqline " | ") 0 initial)
    as Hloop.
  destruct (parse_parts JSON_parse 0 (split reqline " | ") initial) as [result | e];
    cbn [bind] in H.
  - unfold finish in H.
    destruct (missing (Draft.method result)); [discriminate |].
    destruct (missing (Draft.url result)); discriminate.
  - injection H as ->. now apply Hloop.
Qed.

(** ** More on [trim] *)

Section StripFixed.

Variables (w1 : ascii -> bool) (w2 : ascii -> ascii -> bool)
          (w3 : ascii -> ascii -> ascii -> bool).

(** Where nothing is stripped from the start of a string, no white space
    character stands there. *)
Lemma strip_fixed_head (s : string) :
  strip w1 w2 w3 s = s ->
  match s with
  | String a rest =>
      w1 a = false
      /\ match rest with
         | String b rest2 =>
             w2 a b = false
             /\ match rest2 with
                | String c _ => w3 a b c = false
                | EmptyString => True
                end
         | EmptyString => True
         end
  | EmptyString => True
  end.
Proof.
  intros H. destruct s as [| a s1]; [exact I |].
  cbn [strip] in H.
  destruct (w1 a).
  { pose proof (strip_shorter w1 w2 w3 s1) as Hlen.
    rewrite H in Hlen. simpl in Hlen. lia. }
  split; [reflexivity |].
  destruct s1 as [| b s2]; [exact I |].
  destruct (w2 a b).
  { pose proof (strip_shorter w1 w2 w3 s2) as Hlen.
    rewrite H in Hlen. simpl in Hlen. lia. }
  split; [reflexivity |].
  destruct s2 as [| c s3]; [exact I |].
  destruct (w3 a b c); [| reflexivity].
  pose proof (strip_shorter w1 w2 w3 s3) as Hlen.
  rewrite H in Hlen. simpl in Hlen. lia.
Qed.

(** Then nothing is stripped from any of its prefixes either. *)
Lemma strip_fixed_prefix (p q : string) :
  strip w1 w2 w3 (p ++ q) = p ++ q -> strip w1 w2 w3 p = p.
Proof.
  intros H. apply strip_fixed_head in H.
  destruct p as [| a [| b [| c p3]]]; [reflexivity | | |]; cbn [append strip] in *.
  - destruct H as [-> _]. reflexivity.
  - destruct H as (-> & -> & _). reflexivity.
  - destruct H as (-> & -> & ->). reflexivity.
Qed.

End StripFixed.

Lemma trimStart_is_suffix (s : string) : exists blanks, s = blanks ++ trimStart s.
Proof. apply strip_is_suffix. Qed.

Lemma trimEnd_is_prefix (s : string) : exists blanks, s = trimEnd s ++ blanks.
Proof.
  unfold trimEnd.
  destruct (strip_is_suffix ws1 (fun a b => ws2 b a) (fun a b c => ws3 c b a) (reverse s))
    as (blanks & Hsplit).
  exists (reverse blanks).
  rewrite <- reverse_append, <- Hsplit. now rewrite reverse_reverse.
Qed.

Lemma trimEnd_idempotent (s : string) : trimEnd (trimEnd s) = trimEnd s.
Proof.
  unfold trimEnd. now rewrite reverse_reverse, strip_idempotent.
Qed.

(** [trim] is idempotent. *)
Lemma trim_idempotent (s : string) : trim (trim s) = trim s.
Proof.
  unfold trim.
  assert (Hstart : trimStart (trimEnd (trimStart s)) = trimEnd (trimStart s)).
  { destruct (trimEnd_is_prefix (trimStart s)) as (blanks & Hsplit).
    apply (strip_fixed_prefix ws1 ws2 ws3 _ blanks).
    rewrite <- Hsplit. apply strip_idempotent. }
  now rewrite Hstart, trimEnd_idempotent.
Qed.

(** [trim] takes a piece out of the middle. *)
Lemma trim_is_infix (s : string) : exists before after, s = before ++ trim s ++ after.
Proof.
  unfold trim.
  destruct (trimStart_is_suffix s) as (before & Hstart).
  destruct (trimEnd_is_prefix (trimStart s)) as (after & Hend).
  exists before, after. now rewrite <- Hend.
Qed.

Lemma append_same_length (a b : string) :
  String.length (a ++ b) = String.length b -> a = "".
Proof.
  rewrite length_of_append. destruct a; [reflexivity | simpl; lia].
Qed.

(** A string that [trim] leaves alone has white space at neither end. *)
Lemma trim_fixed (s : string) : trim s = s -> trimStart s = s /\ trimEnd s = s.
Proof.
  intros H.
  destruct (trimStart_is_suffix s) as (before & Hstart).
  destruct (trimEnd_is_prefix (trimStart s)) as (after & Hend).
  assert (Hbefore : before = "").
  { apply (f_equal String.length) in Hstart, Hend.
    rewrite length_of_append in Hstart, Hend.
    unfold trim in H. rewrite H in Hend.
    destruct before; [reflexivity | simpl in Hstart; lia]. }
  subst before. cbn [append] in Hstart.
  split; [now symmetry |].
  unfold trim in H. now rewrite <- Hstart in H.
Qed.

(** Behind a string without white space at its end, a further ASCII
    character and what follows it stay. *)
Lemma ascii_is_no_tail_of_white_space (c : ascii) :
  (code c < 128)%N ->
  (forall a, ws2 c a = false)
  /\ (forall a d, ws3 d c a = false)
  /\ (forall a b, ws3 c b a = false).
Proof.
  intros Hc. unfold ws2, ws3, between. revert Hc.
  generalize (code c). intros y Hy.
  split; [| split].
  - intros a. destruct (N.eqb_spec y 194); [lia | reflexivity].
  - intros a d. generalize (code d) (code a). intros x z.
    destruct (N.eqb_spec y 154); [lia |].
    destruct (N.eqb_spec y 128); [lia |].
    destruct (N.eqb_spec y 129); [lia |].
    destruct (N.eqb_spec y 187); [lia |].
    now rewrite !andb_false_r.
  - intros a b. generalize (code b) (code a). intros x z.
    destruct (N.eqb_spec y 225); [lia |].
    destruct (N.eqb_spec y 226); [lia |].
    destruct (N.eqb_spec y 227); [lia |].
    destruct (N.eqb_spec y 239); [lia |].
    reflexivity.
Qed.

Lemma strip_back_fixed_then_ascii (x : string) (c : ascii) (z : string) :
  strip ws1 (fun a b => ws2 b a) (fun a b c => ws3 c b a) x = x ->
  x <> "" ->
  (code c < 128)%N ->
  strip ws1 (fun a b => ws2 b a) (fun a b c => ws3 c b a) (x ++ String c z)
  = x ++ String c z.
Proof.
  intros Hfixed Hne Hc.
  apply strip_fixed_head in Hfixed.
  destruct (ascii_is_no_tail_of_white_space c Hc) as (Hsecond & Hmiddle & Hlead).
  destruct x as [| a [| b [| e x3]]]; [congruence | | |]; cbn [append strip] in *.
  - destruct Hfixed as [-> _]. rewrite Hsecond.
    destruct z as [| d z']; [reflexivity | now rewrite Hmiddle].
  - destruct Hfixed as (-> & -> & _). now rewrite Hlead.
  - destruct Hfixed as (-> & -> & ->). reflexivity.
Qed.

(** A text without white space at its end keeps it behind a prefix that
    ends with an ASCII character. *)
Lemma trimEnd_behind_ascii (p : string) (c : ascii) (u : string) :
  trimEnd u = u -> u <> "" -> (code c < 128)%N ->
  trimEnd (p ++ String c u) = p ++ String c u.
Proof.
  intros Hu Hne Hc. unfold trimEnd in *.
  assert (Hfixed : strip ws1 (fun a b => ws2 b a) (fun a b c => ws3 c b a) (reverse u)
                   = reverse u).
  { apply (f_equal reverse) in Hu. now rewrite reverse_reverse in Hu. }
  rewrite reverse_append. cbn [reverse]. rewrite append_associative. cbn [append].
  rewrite strip_back_fixed_then_ascii; auto.
  - rewrite reverse_append, reverse_reverse. cbn [reverse].
    now rewrite reverse_reverse, append_associative.
  - intros Hrev. apply Hne. now apply reverse_is_empty.
Qed.

Lemma trim_URL_then_text (u : string) :
  trim u = u -> u <> "" -> trim ("URL " ++ u) = "URL " ++ u.
Proof.
  intros Hu Hne. apply trim_fixed in Hu as [_ Hend].
  unfold trim. change (trimStart ("URL " ++ u)) with ("URL " ++ u).
  now apply (trimEnd_behind_ascii "URL" " " u).
Qed.

(** ** Segments *)

Lemma split_from_substring (sep : string) (s : string) :
  forall skip, split_from sep skip s = split_from sep 0 (substring skip s).
Proof.
  induction s as [| c s IH]; intros [| k]; try reflexivity.
  cbn [split_from substring]. apply IH.
Qed.

Lemma includes_false_split (sep s : string) :
  includes s sep = false -> split s sep = [s].
Proof.
  unfold split. induction s as [| c s IH]; intros H; [reflexivity |].
  cbn [includes] in H. apply orb_false_iff in H as [Hhere Hlater].
  cbn [split_from]. rewrite Hhere, (IH Hlater). reflexivity.
Qed.

Lemma scheme_cut (url : string) :
  startsWith url "http://" = true \/ startsWith url "https://" = true ->
  exists rest, url = "http://" ++ rest \/ url = "https://" ++ rest.
Proof.
  intros [H | H]; apply startsWith_cut in H; eexists; [left | right]; exact H.
Qed.

Lemma canonical_split (method url : string) :
  method = "GET" \/ method = "POST" ->
  startsWith url "http://" = true \/ startsWith url "https://" = true ->
  includes url " | " = false ->
  split ("HTTP " ++ method ++ " | URL " ++ url) " | " = ["HTTP " ++ method; "URL " ++ url].
Proof.
  intros Hmethod Hscheme Hfree.
  destruct (scheme_cut url Hscheme) as (rest & [-> | ->]);
    cbn in Hfree; apply includes_false_split in Hfree; unfold split in *;
    destruct Hmethod as [-> | ->]; cbn; rewrite Hfree; reflexivity.
Qed.

Lemma plain_reqline_accepted_core
        (JSON_parse : string -> option json) (method url : string) :
  method = "GET" \/ method = "POST" ->
  startsWith url "http://" = true \/ startsWith url "https://" = true ->
  trim url = url ->
  includes url " | " = false ->
  parseReqline JSON_parse ("HTTP " ++ method ++ " | URL " ++ url)
  = Normal {| Descriptor.method := method;
              Descriptor.url := url;
              Descriptor.headers := JObj [];
              Descriptor.query := JObj [];
              Descriptor.body := JObj [] |}.
Proof.
  intros Hmethod Hscheme Htrim Hfree.
  assert (Hne : url <> "").
  { intros ->. destruct Hscheme as [H | H]; discriminate H. }
  assert (Hhead : parse_part JSON_parse 0 ("HTTP " ++ method) initial
                  = Normal {| Draft.method := Some method;
                              Draft.url := None;
                              Draft.headers := JObj [];
                              Draft.query := JObj [];
                              Draft.body := JObj [] |})
    by (destruct Hmethod as [-> | ->]; reflexivity).
  unfold parseReqline. rewrite canonical_split by assumption.
  cbn [List.length Nat.ltb Nat.leb parse_parts]. rewrite Hhead. cbn [bind].
  unfold parse_part. cbn [Nat.eqb].
  rewrite trim_URL_then_text by assumption.
  change (startsWith ("URL " ++ url) "URL ") with (String.prefix "" url).
  rewrite empty_is_prefix. cbn [negb].
  change (substring 4 ("URL " ++ url)) with url. rewrite Htrim.
  assert (String.eqb url "" = false) as -> by now apply String.eqb_neq.
  assert ((negb (startsWith url "http://") && negb (startsWith url "https://"))%bool
          = false) as ->
    by (destruct Hscheme as [-> | ->]; [reflexivity | apply andb_false_r]).
  assert (Nat.ltb (List.length (split url "/")) 3 = false) as ->
    by (apply Nat.ltb_ge; now apply url_has_three_parts).
  cbn [bind Draft.method Draft.url Draft.headers Draft.query Draft.body].
  unfold finish. cbn [Draft.method Draft.url Draft.headers Draft.query Draft.body missing].
  assert (String.eqb url "" = false) as -> by now apply String.eqb_neq.
  destruct Hmethod as [-> | ->]; reflexivity.
Qed.


(** X16.  A reqline in the plain form [HTTP <method> | URL <url>] is
    accepted, with exactly that method and URL and empty sections, whenever
    the method is [GET] or [POST] and the URL starts with [http://] or
    [https://], has no white space at either end and does not contain the
    separator [ | ]. *)
Theorem plain_reqline_accepted
        (JSON_parse : string -> option json) (method url : string) :
  method = "GET" \/ method = "POST" ->
  startsWith url "http://" = true \/ startsWith url "https://" = true ->
  trim url = url ->
  includes url " | " = false ->
  parseReqline JSON_parse ("HTTP " ++ method ++ " | URL " ++ url)
  = Normal {| Descriptor.method := method;
              Descriptor.url := url;
              Descriptor.headers := JObj [];
              Descriptor.query := JObj [];
              Descriptor.body := JObj [] |}.
Proof. apply plain_reqline_accepted_core. Qed.

Lemma plain_reqline_accepted_witness :
  parseReqline sample_JSON_parse ("HTTP " ++ "POST" ++ " | URL " ++ "https://x.com/a b?c=|")
  = Normal {| Descriptor.method := "POST";
              Descriptor.url := "https://x.com/a b?c=|";
              Descriptor.headers := JObj [];
              Descriptor.query := JObj [];
              Descriptor.body := JObj [] |}.
Proof.
  apply (plain_reqline_accepted sample_JSON_parse "POST" "https://x.com/a b?c=|").
  - now right.
  - now right.
  - vm_compute; reflexivity.
  - vm_compute; reflexivity.
Defined.

(** ** No segment contains the separator *)

Lemma prefix_of_longer (a b t : string) :
  String.prefix a b = true -> String.prefix a (b ++ t) = true.
Proof.
  revert b. induction a as [| c a IH]; intros b H; [apply empty_is_prefix |].
  destruct b as [| d b]; [discriminate |].
  cbn [append String.prefix] in *.
  destruct (ascii_dec c d); [now apply IH | discriminate].
Qed.

Lemma includes_in_longer (x sep : string) (before after : string) :
  includes x sep = true -> includes (before ++ x ++ after) sep = true.
Proof.
  intros H.
  assert (Hright : includes (x ++ after) sep = true).
  { induction x as [| c x IH]; cbn [includes append] in *.
    - rewrite orb_false_r in H. destruct sep; [| discriminate].
      destruct after; reflexivity.
    - apply orb_true_iff in H as [H | H].
      + apply (prefix_of_longer _ (String c x) after) in H.
        cbn [append] in H. now rewrite H.
      + rewrite (IH H). apply orb_true_r. }
  induction before as [| c before IH]; [exact Hright |].
  cbn [append includes]. rewrite IH. apply orb_true_r.
Qed.

Lemma excludes_in_shorter (s x sep : string) (before after : string) :
  s = before ++ x ++ after -> includes s sep = false -> includes x sep = false.
Proof.
  intros -> H. destruct (includes x sep) eqn:Hx; [| reflexivity].
  now rewrite (includes_in_longer x sep before after Hx) in H.
Qed.

Lemma split_head_is_prefix (sep s : string) :
  forall piece pieces,
    split_from sep 0 s = piece :: pieces -> exists rest, s = piece ++ rest.
Proof.
  induction s as [| c s IH]; intros piece pieces H; cbn [split_from] in H.
  - injection H as <- _. now exists "".
  - destruct (String.prefix sep (String c s)).
    + injection H as <- _. now exists (String c s).
    + destruct (split_from sep 0 s) as [| piece' pieces'] eqn:Hs.
      * injection H as <- _. pose proof (split_from_length sep s 0) as Hlen.
        rewrite Hs in Hlen. simpl in Hlen. lia.
      * injection H as <- _.
        destruct (IH piece' pieces' eq_refl) as (rest & ->).
        now exists rest.
Qed.

Lemma substring_is_suffix (n : nat) (s : string) : exists before, s = before ++ substring n s.
Proof.
  revert s. induction n as [| n IH]; intros s; [now exists "" |].
  destruct s as [| c s]; [now exists "" |].
  destruct (IH s) as (before & Hs).
  exists (String c before). cbn [substring append]. now rewrite <- Hs.
Qed.

Lemma substring_shorter (n : nat) (s : string) :
  String.length (substring n s) <= String.length s.
Proof.
  destruct (substring_is_suffix n s) as (before & Hs).
  rewrite Hs at 2. rewrite length_of_append. lia.
Qed.

Lemma segments_exclude_separator (sep : string) (n : nat) :
  sep <> "" ->
  forall s, String.length s <= n ->
            Forall (fun piece => includes piece sep = false) (split s sep).
Proof.
  intros Hsep. unfold split.
  induction n as [| n IH]; intros s Hn.
  - destruct s; [| simpl in Hn; lia].
    repeat constructor. destruct sep; [congruence | reflexivity].
  - destruct s as [| c s].
    { repeat constructor. destruct sep; [congruence | reflexivity]. }
    cbn [split_from].
    destruct (String.prefix sep (String c s)) eqn:Hhere.
    + constructor; [destruct sep; [congruence | reflexivity] |].
      rewrite split_from_substring. apply IH.
      pose proof (substring_shorter (String.length sep - 1) s). simpl in Hn. lia.
    + assert (Hrest : Forall (fun piece => includes piece sep = false)
                             (split_from sep 0 s))
        by (apply IH; simpl in Hn; lia).
      destruct (split_from sep 0 s) as [| piece pieces] eqn:Hs.
      * pose proof (split_from_length sep s 0) as Hlen.
        rewrite Hs in Hlen. simpl in Hlen. lia.
      * inversion Hrest as [| ? ? Hpiece Hpieces]; subst.
        constructor; [| assumption].
        cbn [includes]. rewrite Hpiece, orb_false_r.
        destruct (split_head_is_prefix sep s piece pieces Hs) as (rest & Hcut).
        destruct (String.prefix sep (String c piece)) eqn:Hp; [| reflexivity].
        apply (prefix_of_longer _ _ rest) in Hp. cbn [append] in Hp.
        rewrite <- Hcut in Hp. congruence.
Qed.

Lemma parse_part_second_url segment result result' JSON_parse :
  parse_part JSON_parse 1 segment result = Normal result' ->
  Draft.url result' = Some (trim (substring 4 (trim segment))).
Proof.
  unfold parse_part. cbn [Nat.eqb]. intros H.
  destruct (negb (startsWith (trim segment) "URL ")); [discriminate |].
  destruct (String.eqb _ ""); [discriminate |].
  destruct (_ && _)%bool; [discriminate |].
  destruct (Nat.ltb _ 3); [discriminate |].
  apply Normal_inj in H. now subst result'.
Qed.

(** The URL of an accepted reqline is cut out of its second segment. *)
Lemma parseReqline_url_source JSON_parse reqline d :
  parseReqline JSON_parse reqline = Normal d ->
  exists segment,
    nth_error (split reqline " | ") 1 = Some segment
    /\ Descriptor.url d = trim (substring 4 (trim segment)).
Proof.
  unfold parseReqline. intros H.
  destruct (Nat.ltb_spec (List.length (split reqline " | ")) 2) as [| Hlen];
    [discriminate |].
  apply bind_normal in H as (result & Hloop & Hfin).
  destruct (split reqline " | ") as [| s0 [| s1 rest]]; simpl in Hlen; try lia.
  exists s1. split; [reflexivity |].
  simpl in Hloop.
  apply bind_normal in Hloop as (r0 & _ & Hloop).
  apply bind_normal in Hloop as (r1 & Hsecond & Hrest).
  apply parse_part_second_url in Hsecond.
  apply parse_parts_later_keep_url in Hrest; [| lia].
  unfold finish in Hfin.
  destruct (missing (Draft.method result)); [discriminate |].
  destruct (missing (Draft.url result)); [discriminate |].
  apply Normal_inj in Hfin. subst d. cbn [Descriptor.url].
  now rewrite Hrest, Hsecond.
Qed.

(** X17.  The URLs the parser can store are exactly the texts that start
    with [http://] or [https://], have no white space at either end and do
    not contain the separator [ | ]: every accepted reqline has such a URL,
    and every such text is the URL of an accepted reqline. *)
Theorem storable_urls (JSON_parse : string -> option json) (url : string) :
  (exists reqline d,
      parseReqline JSON_parse reqline = Normal d /\ Descriptor.url d = url)
  <-> (startsWith url "http://" = true \/ startsWith url "https://" = true)
      /\ trim url = url
      /\ includes url " | " = false.
Proof.
  split.
  - intros (reqline & d & Hparse & <-).
    split; [eapply parseReqline_url; eassumption |].
    destruct (parseReqline_url_source _ _ _ Hparse) as (segment & Hnth & ->).
    split; [apply trim_idempotent |].
    pose proof (segments_exclude_separator " | " (String.length reqline)
                  ltac:(discriminate) reqline (le_n _)) as Hfree.
    rewrite Forall_forall in Hfree.
    specialize (Hfree segment (nth_error_In _ _ Hnth)).
    destruct (trim_is_infix segment) as (b1 & a1 & H1).
    destruct (substring_is_suffix 4 (trim segment)) as (b2 & H2).
    destruct (trim_is_infix (substring 4 (trim segment))) as (b3 & a3 & H3).
    apply (excludes_in_shorter _ _ _ _ _ H1) in Hfree.
    rewrite <- (append_empty_right (substring 4 (trim segment))) in H2.
    apply (excludes_in_shorter _ _ _ _ _ H2) in Hfree.
    apply (excludes_in_shorter _ _ _ _ _ H3) in Hfree.
    exact Hfree.
  - intros (Hscheme & Htrim & Hfree).
    exists ("HTTP " ++ "GET" ++ " | URL " ++ url). eexists. split.
    + apply plain_reqline_accepted_core; auto.
    + reflexivity.
Qed.

(** X18.  What the two head segments decide.  For a reqline of two
    segments or more, let [method] be what follows [HTTP ] in the trimmed
    first segment and [value] what follows [URL ] in the trimmed second
    one, each trimmed.  The parser fails with "Missing required HTTP
    keyword" when the first segment does not start with [HTTP ]; else with
    "Invalid HTTP method. Only GET and POST are supported" when [method] is
    neither [GET] nor [POST], in exactly this spelling; else with "Missing
    required URL keyword" when the second segment does not start with
    [URL ]; else with "Invalid URL format. Must start with http:// or
    https://" when [value] starts with neither; and otherwise it goes on
    to the optional sections with [method] and [value] stored. *)
Theorem head_segments_decide
        (JSON_parse : string -> option json) (reqline : string)
        (s0 s1 : string) (rest : list string) :
  split reqline " | " = s0 :: s1 :: rest ->
  let method := trim (substring 5 (trim s0)) in
  let value := trim (substring 4 (trim s1)) in
  let http := startsWith (trim s0) "HTTP " in
  let supported := (String.eqb method "GET" || String.eqb method "POST")%bool in
  let url := startsWith (trim s1) "URL " in
  let scheme := (startsWith value "http://" || startsWith value "https://")%bool in
  parseReqline JSON_parse reqline
  = if negb http then Throw (Error "Missing required HTTP keyword")
    else if negb supported then
      Throw (Error "Invalid HTTP method. Only GET and POST are supported")
    else if negb url then Throw (Error "Missing required URL keyword")
    else if negb scheme then
      Throw (Error "Invalid URL format. Must start with http:// or https://")
    else
      result <- parse_parts JSON_parse 2 rest
                  {| Draft.method := Some method;
                     Draft.url := Some value;
                     Draft.headers := JObj [];
                     Draft.query := JObj [];
                     Draft.body := JObj [] |} ;;
      finish result.
Proof.
  intros Hsplit method value http supported url scheme.
  unfold parseReqline. rewrite Hsplit.
  cbn [List.length Nat.ltb Nat.leb parse_parts].
  unfold parse_part at 1. cbn [Nat.eqb]. fold http method.
  destruct http eqn:Hhttp; cbn [negb bind]; [| reflexivity].
  destruct (String.eqb_spec method "") as [Hempty | _].
  { exfalso. apply startsWith_cut in Hhttp.
    apply (trim_keeps_text_after_space s0 "HTTP" (substring 5 (trim s0))); assumption. }
  replace (negb (String.eqb method "GET") && negb (String.eqb method "POST"))%bool
    with (negb supported) by (unfold supported; now rewrite negb_orb).
  destruct supported; cbn [negb bind]; [| reflexivity].
  unfold parse_part at 1. cbn [Nat.eqb]. fold url value.
  destruct url eqn:Hurl; cbn [negb bind]; [| reflexivity].
  destruct (String.eqb_spec value "") as [Hempty | _].
  { exfalso. apply startsWith_cut in Hurl.
    apply (trim_keeps_text_after_space s1 "URL" (substring 4 (trim s1))); assumption. }
  replace (negb (startsWith value "http://") && negb (startsWith value "https://"))%bool
    with (negb scheme) by (unfold scheme; now rewrite negb_orb).
  destruct scheme eqn:Hscheme; cbn [negb bind]; [| reflexivity].
  assert (Nat.ltb (List.length (split value "/")) 3 = false) as ->.
  { apply Nat.ltb_ge. apply url_has_three_parts.
    unfold scheme in Hscheme. now apply orb_true_iff in Hscheme. }
  reflexivity.
Qed.

Lemma head_segments_decide_witness :
  parseReqline sample_JSON_parse "HTTP get | URL https://x.com/"
  = if negb (startsWith (trim "HTTP get") "HTTP ") then
      Throw (Error "Missing required HTTP keyword")
    else if negb (String.eqb (trim (substring 5 (trim "HTTP get"))) "GET"
                  || String.eqb (trim (substring 5 (trim "HTTP get"))) "POST")%bool then
      Throw (Error "Invalid HTTP method. Only GET and POST are supported")
    else if negb (startsWith (trim "URL https://x.com/") "URL ") then
      Throw (Error "Missing required URL keyword")
    else if negb (startsWith (trim (substring 4 (trim "URL https://x.com/"))) "http://"
                  || startsWith (trim (substring 4 (trim "URL https://x.com/")))
                       "https://")%bool then
      Throw (Error "Invalid URL format. Must start with http:// or https://")
    else
      result <- parse_parts sample_JSON_parse 2 []
                  {| Draft.method := Some (trim (substring 5 (trim "HTTP get")));
                     Draft.url := Some (trim (substring 4 (trim "URL https://x.com/")));
                     Draft.headers := JObj [];
                     Draft.query := JObj [];
                     Draft.body := JObj [] |} ;;
      finish result.
Proof.
  exact (head_segments_decide sample_JSON_parse "HTTP get | URL https://x.com/"
           "HTTP get" "URL https://x.com/" [] eq_refl).
Defined.

(** * Failures between the parser and the HTTP client *)

Lemma Object_keys_throws v error :
  Object_keys v = Throw error -> v = JNull /\ error = TypeError_null_to_object.
Proof.
  unfold Object_keys. destruct v; cbn [Object_entries bind]; try discriminate.
  intros H. now injection H as <-.
Qed.

Example own_toString_in_query (w : world) :
  let reqline := "HTTP GET | URL http://x.com/y | QUERY " ++ text_own_toString in
  parseReqline sample_JSON_parse_with_odd_values reqline
  = Normal {| Descriptor.method := "GET";
              Descriptor.url := "http://x.com/y";
              Descriptor.headers := JObj [];
              Descriptor.query := JObj [("a", JObj [("toString", JNum "1")])];
              Descriptor.body := JObj [] |}
  /\ requests sample_JSON_parse_with_odd_values w (with_reqline reqline) = []
  /\ respond sample_JSON_parse_with_odd_values w (with_reqline reqline)
     = {| Reply.status := 400;
          Reply.data :=
            Failure true "Network error: Cannot convert object to primitive value" |}.
Proof. repeat split; vm_compute; reflexivity. Qed.

Example lone_surrogate_in_query (w : world) :
  let reqline := "HTTP GET | URL http://x.com/y | QUERY " ++ text_lone_surrogate in
  parseReqline sample_JSON_parse_with_odd_values reqline
  = Normal {| Descriptor.method := "GET";
              Descriptor.url := "http://x.com/y";
              Descriptor.headers := JObj [];
              Descriptor.query := JObj [("q", JStr (surrogate 55296))];
              Descriptor.body := JObj [] |}
  /\ requests sample_JSON_parse_with_odd_values w (with_reqline reqline) = []
  /\ respond sample_JSON_parse_with_odd_values w (with_reqline reqline)
     = {| Reply.status := 400;
          Reply.data := Failure true "Network error: URI malformed" |}.
Proof. repeat split; vm_compute; reflexivity. Qed.

(** X19.  When the parser accepted the reqline and yet no request was
    sent, the endpoint answers 400 with one of three messages: "Network
    error: Cannot convert object to primitive value" (a value of the query
    has no text), "Network error: URI malformed" (a key or a text of the
    query holds a lone surrogate), or "Network error: Cannot convert
    undefined or null to object" (the keys of a [null] body were asked
    for).  One of the first two is the answer whenever the query is a
    mapping whose keys and values cannot all be encoded, and the first
    when the mapping has a single field, under a well-formed key, whose
    value is an object with a field of its own called [toString].  The
    third is the answer for every POST whose body is [null] and whose URL
    could be built. *)
Theorem failure_after_parsing
        (JSON_parse : string -> option json) (w : world)
        (text : string) (parsed : Descriptor.t) :
  parseReqline JSON_parse text = Normal parsed ->
  (requests JSON_parse w (with_reqline text) = [] ->
   respond JSON_parse w (with_reqline text)
   = {| Reply.status := 400;
        Reply.data :=
          Failure true "Network error: Cannot convert object to primitive value" |}
   \/ respond JSON_parse w (with_reqline text)
      = {| Reply.status := 400;
           Reply.data := Failure true "Network error: URI malformed" |}
   \/ respond JSON_parse w (with_reqline text)
      = {| Reply.status := 400;
           Reply.data :=
             Failure true "Network error: Cannot convert undefined or null to object" |})
  /\ (forall fields,
         Descriptor.query parsed = JObj fields ->
         (forall entries, ~ Forall2 text_of (own_order fields) entries) ->
         requests JSON_parse w (with_reqline text) = []
         /\ (respond JSON_parse w (with_reqline text)
             = {| Reply.status := 400;
                  Reply.data :=
                    Failure true
                      "Network error: Cannot convert object to primitive value" |}
             \/ respond JSON_parse w (with_reqline text)
                = {| Reply.status := 400;
                     Reply.data := Failure true "Network error: URI malformed" |}))
  /\ (forall key inner,
         Descriptor.query parsed = JObj [(key, JObj inner)] ->
         isWellFormed key = true ->
         hasOwn inner "toString" = true ->
         requests JSON_parse w (with_reqline text) = []
         /\ respond JSON_parse w (with_reqline text)
            = {| Reply.status := 400;
                 Reply.data :=
                   Failure true
                     "Network error: Cannot convert object to primitive value" |})
  /\ (Descriptor.method parsed = "POST" ->
      Descriptor.body parsed = JNull ->
      requests JSON_parse w (with_reqline text) = []
      /\ forall fullUrl,
          buildFullUrl (Descriptor.url parsed) (Descriptor.query parsed) = Normal fullUrl ->
          respond JSON_parse w (with_reqline text)
          = {| Reply.status := 400;
               Reply.data :=
                 Failure true
                   "Network error: Cannot convert undefined or null to object" |}).
Proof.
  intros Hparse.
  assert (Hfalsy : falsy (JStr text) = false).
  { destruct text; [discriminate Hparse | reflexivity]. }
  rewrite requests_cases, respond_cases.
  cbn [with_reqline RequestBody.reqline]. rewrite Hfalsy.
  unfold prepare. cbn [as_string bind]. rewrite Hparse. cbn [bind].
  destruct (buildFullUrl (Descriptor.url parsed) (Descriptor.query parsed))
    as [fullUrl | e] eqn:Hurl; cbn [bind].
  - assert (Hencoded : forall fields,
               Descriptor.query parsed = JObj fields ->
               exists entries, Forall2 text_of (own_order fields) entries).
    { intros fields Hquery. rewrite Hquery in Hurl.
      destruct fields as [| field rest] eqn:Hfields; [exists []; constructor |].
      rewrite <- Hfields in *.
      apply buildFullUrl_of_texts in Hurl as (entries & Hall & _);
        [| rewrite Hfields; discriminate].
      exists entries. exact Hall. }
    assert (Hmapping : forall fields,
               Descriptor.query parsed = JObj fields ->
               (forall entries, ~ Forall2 text_of (own_order fields) entries) -> False).
    { intros fields Hquery Hnone.
      destruct (Hencoded fields Hquery) as (entries & Hall). exact (Hnone entries Hall). }
    assert (Hsingle : forall key inner,
               Descriptor.query parsed = JObj [(key, JObj inner)] ->
               hasOwn inner "toString" = true -> False).
    { intros key inner Hquery Hown.
      destruct (Hencoded _ Hquery) as (entries & Hall).
      rewrite own_order_single in Hall.
      inversion Hall as [| ? entry ? ? Hentry]; subst.
      destruct Hentry as (_ & Htext & _).
      cbn [snd ToString] in Htext. rewrite Hown in Htext. discriminate Htext. }
    destruct (String.eqb_spec (Descriptor.method parsed) "POST") as [Hpost | Hother].
    + destruct (Object_keys (Descriptor.body parsed)) as [keys | e] eqn:Hkeys; cbn [bind].
      * conjuncts.
        -- destruct (Nat.ltb 0 (List.length keys)); discriminate.
        -- intros fields Hquery Hnone. destruct (Hmapping fields Hquery Hnone).
        -- intros key inner Hquery _ Hown. destruct (Hsingle key inner Hquery Hown).
        -- intros _ Hnull. rewrite Hnull in Hkeys. discriminate Hkeys.
      * apply Object_keys_throws in Hkeys as [Hnull ->].
        split; [intros _; right; right; reflexivity |].
        split; [intros fields Hquery Hnone; destruct (Hmapping fields Hquery Hnone) |].
        split; [intros key inner Hquery _ Hown; destruct (Hsingle key inner Hquery Hown) |].
        intros _ _. split; [reflexivity |]. intros full _. reflexivity.
    + split; [discriminate |].
      split; [intros fields Hquery Hnone; destruct (Hmapping fields Hquery Hnone) |].
      split; [intros key inner Hquery _ Hown; destruct (Hsingle key inner Hquery Hown) |].
      congruence.
  - assert (Hreply : on_error e = {| Reply.status := 400;
                                     Reply.data :=
                                       Failure true ("Network error: " ++ JsError.message e) |}
                     /\ (e = TypeError_object_to_primitive \/ e = URIError_malformed)).
    { pose proof (buildFullUrl_throws _ _ _ Hurl) as [-> | ->];
        (split; [vm_compute; reflexivity | auto]). }
    destruct Hreply as [Hreply Herror]. rewrite Hreply.
    split; [intros _; destruct Herror as [-> | ->]; [left | right; left]; reflexivity |].
    split.
    { intros fields _ _. split; [reflexivity |].
      destruct Herror as [-> | ->]; [left | right]; reflexivity. }
    split.
    { intros key inner Hquery Hkey Hown. split; [reflexivity |].
      rewrite Hquery, buildFullUrl_of_mapping, own_order_single in Hurl by discriminate.
      revert Hurl. unfold encode_pair, URI.encodeURIComponent.
      cbn [for_each fst snd ToString bind]. rewrite Hkey, Hown. cbn [bind].
      intros H. injection H as <-. reflexivity. }
    intros _ _. split; [reflexivity | discriminate].
Qed.

Lemma failure_after_parsing_witness :
  let reqline := "HTTP GET | URL http://x.com/y | QUERY " ++ text_own_toString in
  let parsed :=
    {| Descriptor.method := "GET"; Descriptor.url := "http://x.com/y";
       Descriptor.headers := JObj [];
       Descriptor.query := JObj [("a", JObj [("toString", JNum "1")])];
       Descriptor.body := JObj [] |} in
  parseReqline sample_JSON_parse_with_odd_values reqline = Normal parsed
  /\ requests sample_JSON_parse_with_odd_values sample_world (with_reqline reqline) = []
  /\ respond sample_JSON_parse_with_odd_values sample_world (with_reqline reqline)
     = {| Reply.status := 400;
          Reply.data :=
            Failure true "Network error: Cannot convert object to primitive value" |}.
Proof.
  intros reqline parsed.
  assert (Hparse : parseReqline sample_JSON_parse_with_odd_values reqline = Normal parsed)
    by (vm_compute; reflexivity).
  split; [exact Hparse |].
  destruct (failure_after_parsing sample_JSON_parse_with_odd_values sample_world
              reqline parsed Hparse) as (_ & _ & Hsingle & _).
  apply (Hsingle "a" [("toString", JNum "1")]); reflexivity.
Defined.

(** * White space around segments *)

Lemma parse_part_of_trimmed JSON_parse i segment result :
  parse_part JSON_parse i (trim segment) result = parse_part JSON_parse i segment result.
Proof.
  unfold parse_part. now rewrite trim_idempotent.
Qed.

Lemma parse_parts_of_trimmed JSON_parse parts :
  forall i result,
    parse_parts JSON_parse i (map trim parts) result
    = parse_parts JSON_parse i parts result.
Proof.
  induction parts as [| segment rest IH]; intros i result; [reflexivity |].
  cbn [map parse_parts]. rewrite parse_part_of_trimmed.
  destruct (parse_part JSON_parse i segment result); cbn [bind]; [apply IH | reflexivity].
Qed.

(** X20.  White space around a segment does not matter: two reqlines whose
    segments agree once trimmed are treated alike, accepted with the same
    descriptor or refused with the same error. *)
Theorem white_space_around_segments
        (JSON_parse : string -> option json) (reqline reqline' : string) :
  map trim (split reqline " | ") = map trim (split reqline' " | ") ->
  parseReqline JSON_parse reqline = parseReqline JSON_parse reqline'.
Proof.
  intros Hsame. unfold parseReqline.
  rewrite <- (length_map trim (split reqline " | ")),
          <- (length_map trim (split reqline' " | ")),
          <- (parse_parts_of_trimmed _ (split reqline " | ")),
          <- (parse_parts_of_trimmed _ (split reqline' " | ")).
  now rewrite Hsame.
Qed.

Lemma white_space_around_segments_witness :
  parseReqline sample_JSON_parse ("   HTTP POST  |  URL http://x.com/y |    BODY " ++ text_a1)
  = parseReqline sample_JSON_parse ("HTTP POST | URL http://x.com/y | BODY " ++ text_a1).
Proof.
  apply (white_space_around_segments sample_JSON_parse
           ("   HTTP POST  |  URL http://x.com/y |    BODY " ++ text_a1)
           ("HTTP POST | URL http://x.com/y | BODY " ++ text_a1)).
  vm_compute; reflexivity.
Defined.
